(** * transcoder-go: the batch driver of [cmd/root.go]

    A shallow embedding of [rootCmd.Run]: the loop over the globbed file
    list, the sentinel checks, the call of the transcode session and the
    keep/replace decision with its file-system mutations.

    Go strings are [string]; the file system is a finite map from paths to
    byte sizes; every call that leaves the process (an [os] call, the
    metadata probe, the session, a notification, a log line) is recorded
    in the order the driver performs it. *)

From Stdlib Require Import ZArith Lia Bool Ascii String.
From stdpp Require Import base option list gmap strings.

Local Open Scope string_scope.
Local Open Scope Z_scope.

(** ** Go strings: indexing and slicing *)

Module GoString.

(** [len(s)] *)
Definition len (s : string) : nat := String.length s.

(** [s[lo:hi]] for [0 <= lo <= hi <= len(s)]; Go panics outside that
    range, the callers below check the bounds before slicing. *)
Definition slice (s : string) (lo hi : nat) : string :=
  String.substring lo (hi - lo) s.

(** No byte of [s] satisfies [p]. *)
Fixpoint free_of (p : ascii -> bool) (s : string) : bool :=
  match s with
  | EmptyString => true
  | String c r => negb (p c) && free_of p r
  end.

Definition is_dot (c : ascii) : bool := Ascii.eqb c ".".

(** [strings.LastIndex(s, string(c))]: the one-byte case, a backward
    scan; [k] is one more than the next index to look at. *)
Fixpoint LastIndexByte_from (s : string) (c : ascii) (k : nat) : Z :=
  match k with
  | O => -1
  | S i =>
      match String.get i s with
      | Some d => if Ascii.eqb d c then Z.of_nat i
                  else LastIndexByte_from s c i
      | None => -1
      end
  end.

Definition LastIndexByte (s : string) (c : ascii) : Z :=
  LastIndexByte_from s c (len s).

End GoString.

(** ** [path/filepath] on Unix *)

Module filepath.
Import GoString.

Definition Separator : ascii := "/".

(** [os.IsPathSeparator] *)
Definition IsPathSeparator (c : ascii) : bool := Ascii.eqb c Separator.

(** [filepath.Ext]:
    [for i := len(path)-1; i >= 0 && !IsPathSeparator(path[i]); i--]
    returning [path[i:]] at the first dot met. *)
Fixpoint Ext_from (path : string) (k : nat) : string :=
  match k with
  | O => ""
  | S i =>
      match String.get i path with
      | Some c =>
          if IsPathSeparator c then ""
          else if is_dot c then slice path i (len path)
          else Ext_from path i
      | None => ""
      end
  end.

Definition Ext (path : string) : string := Ext_from path (len path).

(** The scan shared by [Dir] and [Base]:
    [i := k-1; for i >= 0 && !IsPathSeparator(path[i]) { i-- }],
    the result is [i+1]. *)
Fixpoint last_elem_start (path : string) (k : nat) : nat :=
  match k with
  | O => O
  | S i =>
      match String.get i path with
      | Some c => if IsPathSeparator c then k else last_elem_start path i
      | None => O
      end
  end.

(** [for len(path) > 0 && IsPathSeparator(path[len(path)-1])] of [Base],
    the result is the new length. *)
Fixpoint strip_trailing (path : string) (k : nat) : nat :=
  match k with
  | O => O
  | S i =>
      match String.get i path with
      | Some c => if IsPathSeparator c then strip_trailing path i else k
      | None => O
      end
  end.

(** [filepath.Base] *)
Definition Base (path : string) : string :=
  if String.eqb path "" then "."
  else
    let path := slice path 0 (strip_trailing path (len path)) in
    let path := slice path (last_elem_start path (len path)) (len path) in
    if String.eqb path "" then "/" else path.

(** *** [filepath.Clean]

    The reading position [r] of the Go loop is the not yet read suffix
    [rest]; the lazy buffer is the written prefix [out], and [out.w] is
    its length. *)

(** Copy an element: [for ; r < n && !IsPathSeparator(path[r]); r++]. *)
Fixpoint copy_elem (rest out : string) : string * string :=
  match rest with
  | EmptyString => (rest, out)
  | String c rest' =>
      if IsPathSeparator c then (rest, out)
      else copy_elem rest' (out ++ String c "")
  end.

(** [out.w--; for out.w > dotdot && !IsPathSeparator(out.index(out.w))
    { out.w-- }]: [k] is [out.w] before the first decrement. *)
Fixpoint backtrack (out : string) (dotdot k : nat) : nat :=
  match k with
  | O => O
  | S w =>
      if (dotdot <? w)%nat then
        match String.get w out with
        | Some c => if IsPathSeparator c then w else backtrack out dotdot w
        | None => w
        end
      else w
  end.

Definition starts_with_sep (s : string) : bool :=
  match s with
  | EmptyString => false
  | String c _ => IsPathSeparator c
  end.

(** [r+1 == n || IsPathSeparator(path[r+1])] on the suffix after [r]. *)
Definition at_elem_end (s : string) : bool :=
  match s with
  | EmptyString => true
  | String c _ => IsPathSeparator c
  end.

Fixpoint Clean_loop (fuel : nat) (rooted : bool) (rest out : string)
         (dotdot : nat) : string :=
  match fuel with
  | O => out
  | S fuel =>
      match rest with
      | EmptyString => out
      | String c rest1 =>
          if IsPathSeparator c then
            (* empty path element *)
            Clean_loop fuel rooted rest1 out dotdot
          else if is_dot c && at_elem_end rest1 then
            (* . element *)
            Clean_loop fuel rooted rest1 out dotdot
          else if is_dot c &&
                  match rest1 with
                  | String c1 rest2 => is_dot c1 && at_elem_end rest2
                  | EmptyString => false
                  end then
            (* .. element: remove to last separator *)
            let rest2 := match rest1 with
                         | String _ r2 => r2
                         | EmptyString => rest1
                         end in
            if (dotdot <? len out)%nat then
              let w := backtrack out dotdot (len out) in
              Clean_loop fuel rooted rest2 (slice out 0 w) dotdot
            else if negb rooted then
              let out := if (0 <? len out)%nat
                         then out ++ String Separator "" else out in
              let out := out ++ ".." in
              Clean_loop fuel rooted rest2 out (len out)
            else Clean_loop fuel rooted rest2 out dotdot
          else
            (* real path element: add slash if needed, copy element *)
            let out :=
              if (rooted && negb (len out =? 1)%nat)
                 || (negb rooted && negb (len out =? 0)%nat)
              then out ++ String Separator "" else out in
            let '(rest', out) := copy_elem rest out in
            Clean_loop fuel rooted rest' out dotdot
      end
  end.

Definition Clean (path : string) : string :=
  if String.eqb path "" then "."
  else
    let rooted := starts_with_sep path in
    let out :=
      if rooted
      then Clean_loop (len path) true (slice path 1 (len path))
                      (String Separator "") 1
      else Clean_loop (len path) false path "" 0 in
    if (len out =? 0)%nat then "." else out.

(** [filepath.Dir] *)
Definition Dir (path : string) : string :=
  Clean (slice path 0 (last_elem_start path (len path))).

End filepath.


(** ** The data handed between the driver and its collaborators *)

Module models.

(** The terminal classification passed to [notifications.NotifyEnd]. *)
Inductive ResultKind : Set :=
| ResultReplaced
| ResultKeepOriginal
| ResultError.

(** Modelled from the spec: package [models] is not among the sources.
    A progress report carries the cumulative output size; [TotalSize] is
    the value of [int64(lastReport.TotalSize)]. *)
Record ReportData : Set := { TotalSize : Z }.

(** Modelled from the spec: package [models] is not among the sources.
    Container metadata is opaque to the driver beyond the byte size
    [metadata.Format.SizeInt()]. *)
Record Metadata : Set := { SizeInt : Z }.

#[global] Instance ResultKind_eq_dec : EqDecision ResultKind.
Proof. solve_decision. Defined.

End models.
Export models.

(** ** The world outside the driver *)

(** Go's [error] as far as the driver looks at it: [os.IsNotExist] or not. *)
Inductive error : Set := ErrNotExist | ErrOther.

Definition IsNotExist (err : option error) : bool :=
  match err with Some ErrNotExist => true | _ => false end.

Definition is_nil {A} (x : option A) : bool :=
  match x with None => true | Some _ => false end.

Inductive oscall : Set :=
| Stat (name : string)
| Create (name : string)
| Remove (name : string)
| Rename (oldpath newpath : string).

Inductive level : Set := Info | Warning | Error.

(** What the process does, in program order. *)
Inductive event : Set :=
| EOs (c : oscall) (err : option error)
| EReadFileMetadata (name : string)
| ETranscodeFile (fileName tempFileName : string)
| ENotifyEnd (result : option Metadata) (report : option ReportData)
             (kind : ResultKind)
| ELog (l : level) (subject : string).

(** Modelled from the spec: [transcoder.TranscodeFile] is not among the
    sources. A session returns [(killed, lastReport)], writes only to the
    temp output ([output] is the size it leaves there, [None] when it
    leaves no file) and never touches the input; a signal delivered while
    it runs has set the termination flag by the time it returns. *)
Record session_result : Set := {
  killed : bool;
  lastReport : option ReportData;
  output : option Z;
  interrupted : bool
}.

(** Configuration and the behaviour of everything the driver calls. *)
Record env : Type := {
  extensions : list string;        (* viper.GetStringSlice("extensions") *)
  keep_old : bool;                 (* viper.GetBool("keep-old") *)
  io_error : oscall -> bool;       (* the call fails, and not with not-exist *)
  probe_error : string -> bool;    (* the metadata probe of this path fails *)
  session : string -> session_result;
  signal_before : string -> bool   (* a signal arrives before this file's turn *)
}.

(** Files with their byte sizes, and [var terminated bool]. *)
Record world : Type := {
  files : gmap string Z;
  terminated : bool
}.

Definition set_files (fs : gmap string Z) (w : world) : world :=
  {| files := fs; terminated := terminated w |}.

(** The signal goroutine of [Execute]: [<-terminate; terminated = true]. *)
Definition deliver (signal : bool) (w : world) : world :=
  {| files := files w; terminated := terminated w || signal |}.

(** ** The loop body as a computation

    [Next a] goes on with the next statement, [Continue] is Go's
    [continue], [Exit] ends the process ([log.Fatal] or a panic). *)

Inductive flow (A : Type) : Type :=
| Next (a : A)
| Continue
| Exit.
Arguments Next {A} a.
Arguments Continue {A}.
Arguments Exit {A}.

Definition M (A : Type) : Type := world -> flow A * world * list event.

Definition ret {A} (a : A) : M A := fun w => (Next a, w, []).

Definition bind {A B} (m : M A) (k : A -> M B) : M B :=
  fun w =>
    match m w with
    | (Next a, w1, e1) =>
        let '(r, w2, e2) := k a w1 in (r, w2, (e1 ++ e2)%list)
    | (Continue, w1, e1) => (Continue, w1, e1)
    | (Exit, w1, e1) => (Exit, w1, e1)
    end.

Notation "x <- m ;; k" := (bind m (fun x => k))
  (at level 60, m at next level, right associativity).
Notation "m ;;; k" := (bind m (fun _ => k))
  (at level 60, right associativity).

Definition continue {A} : M A := fun w => (Continue, w, []).
Definition exit {A} : M A := fun w => (Exit, w, []).
Definition emit (ev : event) : M unit := fun w => (Next tt, w, [ev]).
Definition when (b : bool) (m : M unit) : M unit := if b then m else ret tt.
Definition read_terminated : M bool := fun w => (Next (terminated w), w, []).

Definition log (l : level) (subject : string) : M unit := emit (ELog l subject).

Section Collaborators.
Variable e : env.

(** [os.Stat]: [(stat, err)], [stat] is non-nil exactly when [err] is nil. *)
Definition os_Stat (name : string) : M (option Z * option error) :=
  fun w =>
    let r := if io_error e (Stat name) then (None, Some ErrOther)
             else match files w !! name with
                  | Some sz => (Some sz, None)
                  | None => (None, Some ErrNotExist)
                  end in
    (Next r, w, [EOs (Stat name) r.2]).

(** [os.Create]: creates or truncates. *)
Definition os_Create (name : string) : M (option error) :=
  fun w =>
    if io_error e (Create name)
    then (Next (Some ErrOther), w, [EOs (Create name) (Some ErrOther)])
    else (Next None, set_files (<[name := 0]> (files w)) w,
          [EOs (Create name) None]).

(** [os.Remove] *)
Definition os_Remove (name : string) : M (option error) :=
  fun w =>
    if io_error e (Remove name)
    then (Next (Some ErrOther), w, [EOs (Remove name) (Some ErrOther)])
    else match files w !! name with
         | Some _ => (Next None, set_files (delete name (files w)) w,
                      [EOs (Remove name) None])
         | None => (Next (Some ErrNotExist), w,
                    [EOs (Remove name) (Some ErrNotExist)])
         end.

(** [os.Rename]: replaces [newpath] when it exists. *)
Definition os_Rename (oldpath newpath : string) : M (option error) :=
  fun w =>
    if io_error e (Rename oldpath newpath)
    then (Next (Some ErrOther), w,
          [EOs (Rename oldpath newpath) (Some ErrOther)])
    else match files w !! oldpath with
         | Some sz =>
             (Next None,
              set_files (<[newpath := sz]> (delete oldpath (files w))) w,
              [EOs (Rename oldpath newpath) None])
         | None => (Next (Some ErrNotExist), w,
                    [EOs (Rename oldpath newpath) (Some ErrNotExist)])
         end.

(** Modelled from the spec: [transcoder.ReadFileMetadata] is not among
    the sources. It returns the metadata of the file at [name], the byte
    size included; the read may fail, and as the driver has no branch
    for that, a failed read ends the run. *)
Definition ReadFileMetadata (name : string) : M Metadata :=
  fun w =>
    if probe_error e name then (Exit, w, [EReadFileMetadata name])
    else match files w !! name with
         | Some sz => (Next {| SizeInt := sz |}, w, [EReadFileMetadata name])
         | None => (Exit, w, [EReadFileMetadata name])
         end.

(** The session, see [session_result]. *)
Definition TranscodeFile (fileName tempFileName : string)
           (metadata : Metadata) : M (bool * option ReportData) :=
  fun w =>
    let s := session e fileName in
    let fs := match output s with
              | Some sz => <[tempFileName := sz]> (files w)
              | None => files w
              end in
    (Next (killed s, lastReport s),
     {| files := fs; terminated := terminated w || interrupted s |},
     [ETranscodeFile fileName tempFileName]).

Definition NotifyEnd (result : option Metadata) (report : option ReportData)
           (kind : ResultKind) : M unit :=
  emit (ENotifyEnd result report kind).

End Collaborators.

(** ** [rootCmd.Run] *)

Import GoString.

(** [for _, extension := range viper.GetStringSlice("extensions")]:
    [valid] becomes true at the first extension equal to [ext]. *)
Fixpoint valid_extension (exts : list string) (ext : string) : bool :=
  match exts with
  | [] => false
  | extension :: exts' =>
      if String.eqb ext extension then true else valid_extension exts' ext
  end.

(** [strings.LastIndex(fileName, ".")] *)
Definition lastDot (fileName : string) : Z := LastIndexByte fileName ".".

(** [fileName[:lastDot] + ".mp4"] *)
Definition extCorrectedOriginal (fileName : string) : string :=
  slice fileName 0 (Z.to_nat (lastDot fileName)) ++ ".mp4".

(** [filepath.Dir(extCorrectedOriginal) + "/." +
     filepath.Base(extCorrectedOriginal) + ".processed"] *)
Definition processedFileName (fileName : string) : string :=
  filepath.Dir (extCorrectedOriginal fileName) ++ "/." ++
  filepath.Base (extCorrectedOriginal fileName) ++ ".processed".

(** [fileName + ".transcode-temp"] *)
Definition tempFileName (fileName : string) : string :=
  fileName ++ ".transcode-temp".

(** The slice expression [fileName[:lastDot]] panics for a negative bound. *)
Definition check_slice_bound (hi : Z) : M unit :=
  if hi <? 0 then exit else ret tt.

Section Driver.
Variable e : env.

(** The kill path, lines 136-159: the last statement is [continue]. *)
Definition killed_path (fileName : string) (metadata : Metadata)
           (lastReport : option ReportData) : M unit :=
  (* Assume corrupted output file *)
  err <- os_Remove e (tempFileName fileName) ;;
  when (negb (is_nil err) && negb (IsNotExist err))
       (log Error (tempFileName fileName) ;;; continue) ;;;
  match lastReport with
  | Some report =>
      when (TotalSize report >? SizeInt metadata)
           (log Info fileName ;;;
            NotifyEnd None (Some report) ResultKeepOriginal)
  | None => ret tt
  end ;;;
  continue.

(** The decision after a normal exit, lines 161-202. *)
Definition decide_result (fileName : string) (metadata : Metadata)
  : M unit :=
  resultMetadata <- ReadFileMetadata e (tempFileName fileName) ;;
  if keep_old e && (SizeInt resultMetadata >? SizeInt metadata) then
    (* Transcoded file is bigger than original *)
    err <- os_Remove e (tempFileName fileName) ;;
    when (negb (is_nil err))
         (log Error (tempFileName fileName) ;;; continue) ;;;
    log Info fileName ;;;
    NotifyEnd (Some resultMetadata) None ResultKeepOriginal
  else
    (* Transcoded file is smaller than original *)
    err <- os_Remove e fileName ;;
    when (negb (is_nil err)) (log Error fileName ;;; continue) ;;;
    err <- os_Rename e (tempFileName fileName)
                     (extCorrectedOriginal fileName) ;;
    when (negb (is_nil err))
         (log Error (tempFileName fileName) ;;; continue) ;;;
    log Info fileName ;;;
    NotifyEnd (Some resultMetadata) None ResultReplaced.

(** What follows the return of the session, lines 122-202. *)
Definition conclude (fileName : string) (metadata : Metadata)
           (killed : bool) (lastReport : option ReportData) : M unit :=
  t <- read_terminated ;;
  when t (NotifyEnd None None ResultError ;;; continue) ;;;
  err <- os_Create e (processedFileName fileName) ;;
  when (negb (is_nil err))
       (log Error (processedFileName fileName) ;;; continue) ;;;
  if killed then killed_path fileName metadata lastReport
  else decide_result fileName metadata.

(** One iteration of [for _, fileName := range fileList], after the
    check of [terminated] at its top. *)
Definition loop_body (fileName : string) : M unit :=
  let ext := filepath.Ext fileName in
  when (negb (valid_extension (extensions e) ext)) continue ;;;
  check_slice_bound (lastDot fileName) ;;;
  st <- os_Stat e (processedFileName fileName) ;;
  when (negb (is_nil st.2) && negb (IsNotExist st.2))
       (log Error (processedFileName fileName) ;;; continue) ;;;
  (* File already processed *)
  when (negb (is_nil st.1)) continue ;;;
  log Info fileName ;;;
  metadata <- ReadFileMetadata e fileName ;;
  st <- os_Stat e (tempFileName fileName) ;;
  when (negb (is_nil st.2) && negb (IsNotExist st.2))
       (log Error (tempFileName fileName) ;;; continue) ;;;
  when (is_nil st.2) (log Warning fileName ;;; continue) ;;;
  r <- TranscodeFile e fileName (tempFileName fileName) metadata ;;
  conclude fileName metadata r.1 r.2.

(** The loop over the file list. A [continue] and the end of the body
    both go on with the next file; [return] and a fatal error stop. *)
Fixpoint Run (fileList : list string) (w : world) : world * list event :=
  match fileList with
  | [] => (w, [])
  | fileName :: rest =>
      let w := deliver (signal_before e fileName) w in
      if terminated w then (w, [])
      else
        match loop_body fileName w with
        | (Exit, w', evs) => (w', evs)
        | (_, w', evs) =>
            let '(w'', evs') := Run rest w' in (w'', (evs ++ evs')%list)
        end
  end.

End Driver.

(** What a list of events did: the session calls and the notifications. *)
Definition is_session (ev : event) : bool :=
  match ev with ETranscodeFile _ _ => true | _ => false end.

Definition notified (evs : list event) : list ResultKind :=
  omap (fun ev => match ev with
                  | ENotifyEnd _ _ kind => Some kind
                  | _ => None
                  end) evs.

(** The calls that change the file system. *)
Definition is_mutation (ev : event) : bool :=
  match ev with
  | EOs (Create _) _ | EOs (Remove _) _ | EOs (Rename _ _) _ => true
  | _ => false
  end.

Definition mutations (evs : list event) : list event :=
  List.filter is_mutation evs.

(** ** Reading the result of an iteration *)

Definition control {A} (r : flow A * world * list event) : flow A := r.1.1.
Definition final {A} (r : flow A * world * list event) : world := r.1.2.
Definition events {A} (r : flow A * world * list event) : list event := r.2.

(** The session call is among the events. *)
Definition session_ran (evs : list event) : bool := existsb is_session evs.

(** Every check before the session call lets the candidate through:
    lines 72-118. *)
Definition reaches_session (e : env) (fileName : string) (w : world) : bool :=
  valid_extension (extensions e) (filepath.Ext fileName)
  && (0 <=? lastDot fileName)
  && negb (io_error e (Stat (processedFileName fileName)))
  && is_nil (files w !! processedFileName fileName)
  && negb (probe_error e fileName)
  && negb (is_nil (files w !! fileName))
  && negb (io_error e (Stat (tempFileName fileName)))
  && is_nil (files w !! tempFileName fileName).

(** The world in which [TranscodeFile] returns. *)
Definition after_session (e : env) (fileName : string) (w : world) : world :=
  {| files := match output (session e fileName) with
              | Some sz => <[tempFileName fileName := sz]> (files w)
              | None => files w
              end;
     terminated := terminated w || interrupted (session e fileName) |}.

(** The events of an iteration up to the session call. *)
Definition prologue (fileName : string) : list event :=
  [EOs (Stat (processedFileName fileName)) (Some ErrNotExist);
   ELog Info fileName;
   EReadFileMetadata fileName;
   EOs (Stat (tempFileName fileName)) (Some ErrNotExist);
   ETranscodeFile fileName (tempFileName fileName)].

(** [int64(lastReport.TotalSize) > metadata.Format.SizeInt()] for a
    report that exists. *)
Definition report_exceeds (report : option ReportData) (original : Z) : bool :=
  match report with
  | Some r => TotalSize r >? original
  | None => false
  end.

(** No call of the decision fails for a reason of its own: the [os] calls
    do not return an I/O error and the temp output can be probed. *)
Definition no_faults (e : env) (fileName : string) : Prop :=
  (forall c, io_error e c = false) /\
  probe_error e (tempFileName fileName) = false.

(** Later iterations over the same file, each in an environment of its
    own: the events of all of them. *)
Fixpoint later_passes (es : list env) (fileName : string) (w : world)
  : list event :=
  match es with
  | [] => []
  | e :: es' =>
      let r := loop_body e fileName w in
      (events r ++ later_passes es' fileName (final r))%list
  end.

(** ** Directories made of plain elements *)

(** An element that [Clean] copies as it is: not empty, without a
    separator, and neither [.] nor [..]. *)
Definition plain_elem (x : string) : bool :=
  negb (String.eqb x "") && free_of filepath.IsPathSeparator x
  && negb (String.eqb x ".") && negb (String.eqb x "..").

(** [/x1/x2/.../xn] *)
Fixpoint slashed (elems : list string) : string :=
  match elems with
  | [] => ""
  | x :: rest => "/" ++ x ++ slashed rest
  end.

(** [x1/x2/.../xn] *)
Definition join_elems (elems : list string) : string :=
  match elems with
  | [] => ""
  | x :: rest => x ++ slashed rest
  end.

(** [x1/x2/.../xn/] *)
Fixpoint terminated_elems (elems : list string) : string :=
  match elems with
  | [] => ""
  | x :: rest => x ++ "/" ++ terminated_elems rest
  end.

(** [rooted && out.w != 1 || !rooted && out.w != 0] *)
Definition need_slash (rooted : bool) (out : string) : bool :=
  rooted && negb (len out =? 1)%nat || negb rooted && negb (len out =? 0)%nat.

(** What the loop of [Clean] writes for a run of plain elements. *)
Fixpoint append_elems (rooted : bool) (out : string) (elems : list string)
  : string :=
  match elems with
  | [] => out
  | x :: rest =>
      append_elems rooted
        ((if need_slash rooted out then out ++ "/" else out) ++ x) rest
  end.

(** A directory made of plain elements, relative or rooted. *)
Definition plain_dir (dir : string) : Prop :=
  exists x elems, forallb plain_elem (x :: elems) = true /\
    (dir = join_elems (x :: elems) \/ dir = "/" ++ join_elems (x :: elems)).

(** ** Concrete runs *)

(** The default of the [extensions] flag. *)
Definition default_extensions : list string := [".mp4"; ".mkv"; ".flv"].

(** An environment without I/O errors and signals between files, in which
    every session behaves as [s]. *)
Definition quiet_env (keep : bool) (s : session_result) : env :=
  {| extensions := default_extensions;
     keep_old := keep;
     io_error := fun _ => false;
     probe_error := fun _ => false;
     session := fun _ => s;
     signal_before := fun _ => false |}.

(** As [quiet_env], but the rename of the temp output fails. *)
Definition rename_fails_env (keep : bool) (s : session_result) : env :=
  {| extensions := default_extensions;
     keep_old := keep;
     io_error := fun c => match c with Rename _ _ => true | _ => false end;
     probe_error := fun _ => false;
     session := fun _ => s;
     signal_before := fun _ => false |}.

Definition one_file (name : string) (size : Z) : world :=
  {| files := {[ name := size ]}; terminated := false |}.

Definition MB : Z := 1000000.

(** A session that runs to its end and leaves [size] bytes. *)
Definition completes (size : Z) : session_result :=
  {| killed := false; lastReport := None; output := Some size;
     interrupted := false |}.

(** A session stopped by a signal, with a last report of [reported] bytes. *)
Definition signalled (reported : Z) : session_result :=
  {| killed := true; lastReport := Some {| TotalSize := reported |};
     output := Some reported; interrupted := true |}.

(** A session that reports [killed] although no signal arrived. *)
Definition killed_quietly (report : option ReportData) (size : Z)
  : session_result :=
  {| killed := true; lastReport := report; output := Some size;
     interrupted := false |}.

(** ** The glob stage of [rootCmd.Run], lines 53-65 *)

(** What [rootCmd.Run] does as a whole: the trace line per argument, the
    fatal error of a malformed pattern, and the events of the loop. *)
Inductive cmd_event : Set :=
| CTrace (arg : string) (found : nat)
| CFatal
| CLoop (ev : event).

(** [for _, arg := range args]: [glob] is [filepath.Glob], the matching
    files or, for a malformed pattern, an error; [fileList] is the list
    appended to so far. *)
Fixpoint glob_args (glob : string -> option (list string))
         (args : list string) (fileList : list string)
  : option (list string) * list cmd_event :=
  match args with
  | [] => (Some fileList, [])
  | arg :: args' =>
      match glob arg with
      | None => (None, [CFatal])
      | Some found =>
          let '(r, evs) := glob_args glob args' (fileList ++ found)%list in
          (r, CTrace arg (List.length found) :: evs)
      end
  end.

(** [rootCmd.Run]: the glob stage, then the loop over the file list. *)
Definition rootCmd_Run (glob : string -> option (list string)) (e : env)
           (args : list string) (w : world) : world * list cmd_event :=
  match glob_args glob args [] with
  | (None, evs) => (w, evs)
  | (Some fileList, evs) =>
      let '(w', evs') := Run e fileList w in
      (w', (evs ++ List.map CLoop evs')%list)
  end.

Definition is_loop_event (ev : cmd_event) : bool :=
  match ev with CLoop _ => true | _ => false end.


(** An environment without signals between files, with the given
    allow-list and failing calls. *)
Definition env_with (exts : list string) (keep : bool)
           (fault : oscall -> bool) (s : session_result) : env :=
  {| extensions := exts;
     keep_old := keep;
     io_error := fault;
     probe_error := fun _ => false;
     session := fun _ => s;
     signal_before := fun _ => false |}.

Definition is_stat (c : oscall) : bool :=
  match c with Stat _ => true | _ => false end.

Definition is_create (c : oscall) : bool :=
  match c with Create _ => true | _ => false end.

Definition is_remove (c : oscall) : bool :=
  match c with Remove _ => true | _ => false end.

(** * Facts about Go strings *)

Section StringFacts.
Local Open Scope nat_scope.
Implicit Types (a b s t : string) (c d : ascii) (i j k : nat).
Local Arguments String.append !_ _ / : simpl nomatch.

Lemma len_app a b : len (a ++ b) = len a + len b.
Proof. induction a as [|c a IH]; simpl; [done | by rewrite IH]. Qed.

Lemma str_app_assoc a b s : (a ++ b) ++ s = a ++ b ++ s.
Proof. induction a as [|c a IH]; simpl; [done | by rewrite IH]. Qed.

Lemma str_app_nil_r a : a ++ "" = a.
Proof. induction a as [|c a IH]; simpl; [done | by rewrite IH]. Qed.

Lemma str_app_inv_head a s t : a ++ s = a ++ t -> s = t.
Proof. induction a as [|c a IH]; simpl; [done | intros [= H]; auto]. Qed.

Lemma get_app_l a b i : i < len a -> String.get i (a ++ b) = String.get i a.
Proof. intros H. symmetry. by apply append_correct1. Qed.

Lemma get_app_r a b i : String.get (len a + i) (a ++ b) = String.get i b.
Proof. rewrite Nat.add_comm. symmetry. apply append_correct2. Qed.

Lemma get_lt s i : i < len s -> exists c, String.get i s = Some c.
Proof.
  revert i. induction s as [|c s IH]; simpl; intros i H; [lia|].
  destruct i as [|i]; [by exists c | apply IH; lia].
Qed.

Lemma get_ge s i : len s <= i -> String.get i s = None.
Proof.
  revert i. induction s as [|c s IH]; simpl; intros i H; [done|].
  destruct i as [|i]; [lia | apply IH; lia].
Qed.

Lemma substring_0_app a b : String.substring 0 (len a) (a ++ b) = a.
Proof.
  induction a as [|c a IH]; simpl.
  - by destruct b.
  - by rewrite IH.
Qed.

Lemma substring_all s : String.substring 0 (len s) s = s.
Proof. induction s as [|c s IH]; simpl; [done | by rewrite IH]. Qed.

Lemma substring_drop_app a b k :
  String.substring (len a) k (a ++ b) = String.substring 0 k b.
Proof. induction a as [|c a IH]; simpl; [done | by rewrite IH]. Qed.

Lemma slice_prefix a b : slice (a ++ b) 0 (len a) = a.
Proof. unfold slice. rewrite Nat.sub_0_r. apply substring_0_app. Qed.

Lemma slice_all s : slice s 0 (len s) = s.
Proof. unfold slice. rewrite Nat.sub_0_r. apply substring_all. Qed.

Lemma slice_suffix a b : slice (a ++ b) (len a) (len (a ++ b)) = b.
Proof.
  unfold slice. rewrite len_app, substring_drop_app.
  replace (len a + len b - len a) with (len b) by lia.
  apply substring_all.
Qed.

Lemma free_of_get p s i c :
  free_of p s = true -> String.get i s = Some c -> p c = false.
Proof.
  revert i. induction s as [|d s IH]; simpl; intros i Hf Hg; [done|].
  apply andb_true_iff in Hf as [Hd Hs].
  destruct i as [|i].
  - injection Hg as <-. by apply negb_true_iff.
  - by apply (IH i).
Qed.

Lemma free_of_app p a b :
  free_of p (a ++ b) = free_of p a && free_of p b.
Proof.
  induction a as [|c a IH]; simpl; [done|].
  by rewrite IH, andb_assoc.
Qed.

(** A backward scan that stops at the first byte satisfying [p] finds
    the byte [c] in [a ++ c :: t] when [t] is free of such bytes. *)
Lemma scan_back_get a c t j :
  free_of (fun d => Ascii.eqb d c) t = true ->
  j <= len t ->
  LastIndexByte_from (a ++ String c t) c (len a + 1 + j) = Z.of_nat (len a).
Proof.
  intros Hfree. induction j as [|j IH]; intros Hj.
  - replace (len a + 1 + 0) with (S (len a)) by lia. simpl.
    replace (len a) with (len a + 0) at 1 by lia.
    rewrite get_app_r. simpl. by rewrite Ascii.eqb_refl.
  - replace (len a + 1 + S j) with (S (len a + S j)) by lia. simpl.
    rewrite get_app_r. simpl.
    destruct (get_lt t j) as [d Hd]; [lia|]. rewrite Hd.
    rewrite (free_of_get _ _ _ _ Hfree Hd).
    replace (len a + S j) with (len a + 1 + j) by lia. apply IH. lia.
Qed.

Lemma LastIndexByte_app a c t :
  free_of (fun d => Ascii.eqb d c) t = true ->
  LastIndexByte (a ++ String c t) c = Z.of_nat (len a).
Proof.
  intros Hfree. unfold LastIndexByte.
  replace (len (a ++ String c t)) with (len a + 1 + len t)
    by (rewrite len_app; simpl; lia).
  by apply scan_back_get.
Qed.

(** Without the byte anywhere, the scan answers -1. *)
Lemma LastIndexByte_from_free s c k :
  free_of (fun d => Ascii.eqb d c) s = true ->
  LastIndexByte_from s c k = (-1)%Z.
Proof.
  intros Hfree. induction k as [|k IH]; simpl; [done|].
  destruct (String.get k s) as [d|] eqn:Hd; [|done].
  by rewrite (free_of_get _ _ _ _ Hfree Hd).
Qed.

End StringFacts.

(** * Facts about [path/filepath] *)

Section PathFacts.
Import filepath.
Local Open Scope nat_scope.
Implicit Types (a b s t : string) (c d : ascii) (i j k : nat).
Local Arguments String.append !_ _ / : simpl nomatch.

Lemma len_app_cons a c t : len (a ++ String c t) = len a + 1 + len t.
Proof. rewrite len_app. simpl. lia. Qed.

Lemma Ext_from_app a t j :
  free_of IsPathSeparator t = true -> free_of is_dot t = true ->
  j <= len t ->
  Ext_from (a ++ String "." t) (len a + 1 + j) = String "." t.
Proof.
  intros Hsep Hdot. induction j as [|j IH]; intros Hj.
  - replace (len a + 1 + 0) with (S (len a)) by lia. simpl.
    replace (len a) with (len a + 0) at 1 by lia.
    rewrite get_app_r. simpl. apply slice_suffix.
  - replace (len a + 1 + S j) with (S (len a + S j)) by lia. simpl.
    rewrite get_app_r. simpl.
    destruct (get_lt t j) as [d Hd]; [lia|]. rewrite Hd.
    rewrite (free_of_get _ _ _ _ Hsep Hd), (free_of_get _ _ _ _ Hdot Hd).
    replace (len a + S j) with (len a + 1 + j) by lia. apply IH. lia.
Qed.

Lemma Ext_app a t :
  free_of IsPathSeparator t = true -> free_of is_dot t = true ->
  Ext (a ++ String "." t) = String "." t.
Proof.
  intros Hsep Hdot. unfold Ext. rewrite len_app_cons.
  by apply Ext_from_app.
Qed.

Lemma last_elem_start_from_app a t j :
  free_of IsPathSeparator t = true -> j <= len t ->
  last_elem_start (a ++ String "/" t) (len a + 1 + j) = S (len a).
Proof.
  intros Hsep. induction j as [|j IH]; intros Hj.
  - replace (len a + 1 + 0) with (S (len a)) by lia. simpl.
    replace (len a) with (len a + 0) at 1 by lia.
    by rewrite get_app_r.
  - replace (len a + 1 + S j) with (S (len a + S j)) by lia. simpl.
    rewrite get_app_r. simpl.
    destruct (get_lt t j) as [d Hd]; [lia|]. rewrite Hd.
    rewrite (free_of_get _ _ _ _ Hsep Hd).
    replace (len a + S j) with (len a + 1 + j) by lia. apply IH. lia.
Qed.

Lemma last_elem_start_app a t :
  free_of IsPathSeparator t = true ->
  last_elem_start (a ++ String "/" t) (len (a ++ String "/" t)) = S (len a).
Proof.
  intros Hsep. rewrite len_app_cons. by apply last_elem_start_from_app.
Qed.

Lemma last_elem_start_free t k :
  free_of IsPathSeparator t = true -> last_elem_start t k = 0.
Proof.
  intros Hsep. induction k as [|k IH]; simpl; [done|].
  destruct (String.get k t) as [d|] eqn:Hd; [|done].
  by rewrite (free_of_get _ _ _ _ Hsep Hd).
Qed.

Lemma strip_trailing_keep a t :
  t <> "" -> free_of IsPathSeparator t = true ->
  strip_trailing (a ++ t) (len (a ++ t)) = len (a ++ t).
Proof.
  intros Hne Hsep. rewrite len_app.
  destruct t as [|c t]; [done|]. simpl len.
  replace (len a + S (len t)) with (S (len a + len t)) by lia.
  simpl. rewrite get_app_r.
  destruct (get_lt (String c t) (len t)) as [d Hd]; [simpl; lia|].
  rewrite Hd. by rewrite (free_of_get _ _ _ _ Hsep Hd).
Qed.

Lemma app_not_empty a c t : a ++ String c t <> "".
Proof. destruct a; simpl; discriminate. Qed.

Lemma eqb_not_empty s : s <> "" -> String.eqb s "" = false.
Proof. intros H. by apply String.eqb_neq. Qed.

(** The last element of a path that does not end in a separator. *)
Lemma Base_after_sep a t :
  t <> "" -> free_of IsPathSeparator t = true ->
  Base (a ++ String "/" t) = t.
Proof.
  intros Hne Hsep. unfold Base.
  rewrite (eqb_not_empty _ (app_not_empty a "/" t)).
  replace (a ++ String "/" t) with ((a ++ "/") ++ t)
    by (rewrite str_app_assoc; done).
  rewrite strip_trailing_keep by done. rewrite slice_all.
  rewrite str_app_assoc. simpl.
  rewrite last_elem_start_app by done.
  replace (S (len a)) with (len (a ++ "/")) by (rewrite len_app; simpl; lia).
  replace (a ++ String "/" t) with ((a ++ "/") ++ t)
    by (rewrite str_app_assoc; done).
  rewrite slice_suffix. by rewrite eqb_not_empty.
Qed.

Lemma Base_free t :
  t <> "" -> free_of IsPathSeparator t = true -> Base t = t.
Proof.
  intros Hne Hsep. unfold Base. rewrite eqb_not_empty by done.
  pose proof (strip_trailing_keep "" t Hne Hsep) as H. simpl in H.
  rewrite H, slice_all, last_elem_start_free by done.
  rewrite slice_all. by rewrite eqb_not_empty.
Qed.

(** [Dir] cleans everything up to and with the last separator. *)
Lemma Dir_after_sep a t :
  free_of IsPathSeparator t = true ->
  Dir (a ++ String "/" t) = Clean (a ++ "/").
Proof.
  intros Hsep. unfold Dir. rewrite last_elem_start_app by done.
  replace (S (len a)) with (len (a ++ "/")) by (rewrite len_app; simpl; lia).
  replace (a ++ String "/" t) with ((a ++ "/") ++ t)
    by (rewrite str_app_assoc; done).
  by rewrite slice_prefix.
Qed.

Lemma Dir_free t : free_of IsPathSeparator t = true -> Dir t = ".".
Proof.
  intros Hsep. unfold Dir. rewrite last_elem_start_free by done.
  unfold slice. simpl. by destruct t.
Qed.

(** Every path is one element, or ends in a separator and an element. *)
Lemma last_elem_split s :
  free_of IsPathSeparator s = true \/
  exists a t, s = a ++ String "/" t /\ free_of IsPathSeparator t = true.
Proof.
  induction s as [|c s IH]; [by left|].
  destruct IH as [Hfree | (a & t & -> & Ht)].
  - destruct (IsPathSeparator c) eqn:Hc.
    + right. exists "", s. split; [|done].
      apply Ascii.eqb_eq in Hc. by rewrite Hc.
    + left. simpl. by rewrite Hc, Hfree.
  - right. by exists (String c a), t.
Qed.

(** The split at the last separator is unique. *)
Lemma last_elem_unique a t a' t' :
  free_of IsPathSeparator t = true -> free_of IsPathSeparator t' = true ->
  a ++ String "/" t = a' ++ String "/" t' -> a = a' /\ t = t'.
Proof.
  intros Ht Ht' Heq.
  pose proof (last_elem_start_app a t Ht) as H1.
  pose proof (last_elem_start_app a' t' Ht') as H2.
  rewrite Heq, H2 in H1. injection H1 as Hlen.
  pose proof (slice_prefix a (String "/" t)) as P1.
  pose proof (slice_prefix a' (String "/" t')) as P2.
  rewrite Heq, <- Hlen, P2 in P1. subst a'.
  split; [done|]. apply str_app_inv_head in Heq. by injection Heq.
Qed.

End PathFacts.

(** * [filepath.Clean] on plain directories *)

Section CleanFacts.
Import filepath.
Local Open Scope nat_scope.
Implicit Types (a b s t x : string) (c d : ascii).
Local Arguments String.append !_ _ / : simpl nomatch.

Lemma copy_elem_len rest out :
  len (copy_elem rest out).1 <= len rest.
Proof.
  revert out. induction rest as [|c rest IH]; intros out; simpl; [done|].
  destruct (IsPathSeparator c); simpl; [done|].
  specialize (IH (out ++ String c "")). lia.
Qed.

Lemma copy_elem_shrinks c rest out :
  IsPathSeparator c = false ->
  len (copy_elem (String c rest) out).1 <= len rest.
Proof. intros Hc. simpl. rewrite Hc. apply copy_elem_len. Qed.

(** The fuel given by [Clean] is never used up: any amount that covers
    the unread suffix gives the same result. *)
Lemma Clean_loop_fuel fuel fuel' rooted rest out dotdot :
  len rest <= fuel -> len rest <= fuel' ->
  Clean_loop fuel rooted rest out dotdot
  = Clean_loop fuel' rooted rest out dotdot.
Proof.
  revert fuel' rest out dotdot.
  induction fuel as [|fuel IH]; intros fuel' rest out dotdot H1 H2.
  - destruct rest; [|simpl in H1; lia]. by destruct fuel'.
  - destruct fuel' as [|fuel']; [destruct rest; [done | simpl in H2; lia] |].
    destruct rest as [|c rest1]; [done|]. simpl in H1, H2.
    cbn [Clean_loop].
    destruct (IsPathSeparator c) eqn:Hc; [apply IH; lia|].
    destruct (is_dot c && at_elem_end rest1); [apply IH; lia|].
    destruct (is_dot c && _) eqn:Hdd.
    + destruct rest1 as [|c1 rest2]; [by rewrite andb_false_r in Hdd|].
      simpl in H1, H2.
      destruct (_ <? _); [apply IH; lia|].
      destruct (negb rooted); apply IH; lia.
    + pose proof (copy_elem_shrinks c rest1
                    (if rooted && negb (len out =? 1)
                        || negb rooted && negb (len out =? 0)
                     then out ++ String Separator "" else out) Hc) as Hs.
      destruct (copy_elem _ _) as [rest' out'] eqn:He. simpl in Hs.
      apply IH; lia.
Qed.

Lemma copy_elem_plain x rest out :
  free_of IsPathSeparator x = true ->
  copy_elem (x ++ String "/" rest) out = (String "/" rest, out ++ x).
Proof.
  revert out. induction x as [|c x IH]; intros out Hx; simpl.
  - by rewrite str_app_nil_r.
  - simpl in Hx. apply andb_true_iff in Hx as [Hc Hx].
    apply negb_true_iff in Hc. rewrite Hc, IH by done.
    by rewrite str_app_assoc.
Qed.

Lemma plain_elem_spec x :
  plain_elem x = true ->
  exists c x', x = String c x' /\ IsPathSeparator c = false /\
    free_of IsPathSeparator x' = true /\
    (is_dot c = true -> x' <> "" /\ x' <> ".").
Proof.
  unfold plain_elem. intros H.
  repeat (apply andb_true_iff in H as [H ?]).
  destruct x as [|c x']; [done|]. exists c, x'.
  simpl in H2. apply andb_true_iff in H2 as [Hc Hx'].
  apply negb_true_iff in Hc. split_and!; try done.
  intros Hd. apply Ascii.eqb_eq in Hd. subst c. split; intros ->; done.
Qed.

Lemma Clean_loop_plain rooted elems fuel out dotdot :
  forallb plain_elem elems = true ->
  len (terminated_elems elems) <= fuel ->
  Clean_loop fuel rooted (terminated_elems elems) out dotdot
  = append_elems rooted out elems.
Proof.
  revert fuel out. induction elems as [|x elems IH]; intros fuel out Hp Hf.
  - simpl. by destruct fuel.
  - simpl in Hp. apply andb_true_iff in Hp as [Hx Hp].
    pose proof Hx as Hplain. unfold plain_elem in Hplain.
    repeat (apply andb_true_iff in Hplain as [Hplain ?]).
    destruct (plain_elem_spec x Hx) as (c & x' & -> & Hc & Hx' & Hdot).
    cbn [terminated_elems] in Hf |- *.
    rewrite !len_app in Hf. simpl in Hf.
    destruct fuel as [|fuel]; [lia|].
    change ((String c x' ++ "/" ++ terminated_elems elems))
      with (String c (x' ++ String "/" (terminated_elems elems))).
    cbn [Clean_loop]. rewrite Hc.
    assert (is_dot c && at_elem_end (x' ++ String "/" (terminated_elems elems))
            = false) as ->.
    { destruct (is_dot c) eqn:Hd; [|done]. destruct (Hdot eq_refl) as [Hne _].
      destruct x' as [|c1 x'']; [done|]. simpl. simpl in Hx'.
      apply andb_true_iff in Hx' as [Hc1 _]. by apply negb_true_iff in Hc1. }
    assert (is_dot c &&
            match x' ++ String "/" (terminated_elems elems) with
            | String c1 rest2 => is_dot c1 && at_elem_end rest2
            | EmptyString => false
            end = false) as ->.
    { destruct (is_dot c) eqn:Hd; [|done]. destruct (Hdot eq_refl) as [Hne Hne'].
      destruct x' as [|c1 x'']; [done|]. simpl.
      destruct (is_dot c1) eqn:Hd1; [|done]. simpl.
      apply Ascii.eqb_eq in Hd1. subst c1.
      destruct x'' as [|c2 x3]; [done|]. simpl. simpl in Hx'.
      apply andb_true_iff in Hx' as [Hc2 _].
      by apply negb_true_iff in Hc2. }
    change (String c (x' ++ String "/" (terminated_elems elems)))
      with (String c x' ++ String "/" (terminated_elems elems)).
    rewrite copy_elem_plain by (simpl; by rewrite Hc, Hx').
    destruct fuel as [|fuel]; [lia|].
    cbn [Clean_loop]. change (IsPathSeparator "/") with true. cbn iota.
    rewrite IH by (done || lia). done.
Qed.

Lemma append_elems_slashed (rooted : bool) out elems :
  (if rooted then 2 else 1) <= len out ->
  append_elems rooted out elems = out ++ slashed elems.
Proof.
  revert out. induction elems as [|x elems IH]; intros out Hout; simpl.
  - by rewrite str_app_nil_r.
  - assert (need_slash rooted out = true) as ->.
    { unfold need_slash. destruct rooted; simpl.
      - rewrite orb_false_r. apply negb_true_iff, Nat.eqb_neq. lia.
      - apply negb_true_iff, Nat.eqb_neq. lia. }
    rewrite IH.
    + by rewrite !str_app_assoc.
    + rewrite !len_app. simpl. destruct rooted; lia.
Qed.

Lemma terminated_elems_join x elems :
  (x ++ slashed elems) ++ "/" = terminated_elems (x :: elems).
Proof.
  revert x. induction elems as [|y elems IH]; intros x.
  - simpl. by rewrite str_app_nil_r.
  - cbn [slashed].
    change (terminated_elems (x :: y :: elems))
      with (x ++ "/" ++ terminated_elems (y :: elems)).
    rewrite <- IH. by rewrite !str_app_assoc.
Qed.

(** [Clean] leaves such a directory as it is, up to the separator that
    [Dir] hands over at its end. *)
Lemma Clean_plain_dir dir : plain_dir dir -> Clean (dir ++ "/") = dir.
Proof.
  intros (x & elems & Hp & Hdir).
  pose proof Hp as Hp'. simpl in Hp'. apply andb_true_iff in Hp' as [Hx _].
  destruct (plain_elem_spec x Hx) as (c & x' & -> & Hc & Hx' & _).
  set (path := terminated_elems (String c x' :: elems)).
  assert (String.eqb path "" = false) as Hne by done.
  assert (starts_with_sep path = false) as Hrel by (simpl; done).
  destruct Hdir as [-> | ->].
  - cbn [join_elems]. rewrite terminated_elems_join. fold path. unfold Clean.
    rewrite Hne, Hrel. unfold path.
    rewrite Clean_loop_plain by done.
    cbn [append_elems]. simpl need_slash. cbn iota.
    rewrite append_elems_slashed by (simpl; lia).
    done.
  - cbn [join_elems]. rewrite str_app_assoc, terminated_elems_join. fold path.
    unfold Clean.
    change (String.eqb ("/" ++ path) "") with false.
    change (starts_with_sep ("/" ++ path)) with true. cbn iota.
    assert (slice ("/" ++ path) 1 (len ("/" ++ path)) = path) as ->
      by apply (slice_suffix "/").
    unfold path.
    rewrite Clean_loop_plain by (done || (simpl; lia)).
    cbn [append_elems]. simpl need_slash. cbn iota.
    rewrite append_elems_slashed by (simpl; lia).
    done.
Qed.
End CleanFacts.

(** * The derived paths of a candidate *)

Section Sentinels.
Import filepath.
Local Open Scope nat_scope.
Implicit Types (a b s t f : string) (c d : ascii).
Local Arguments String.append !_ _ / : simpl nomatch.

Lemma last_byte_inj a c b d : a ++ String c "" = b ++ String d "" -> c = d.
Proof.
  intros Heq.
  assert (len a = len b) as Hlen.
  { apply (f_equal len) in Heq. rewrite !len_app in Heq. simpl in Heq. lia. }
  pose proof (get_app_r a (String c "") 0) as Ha.
  pose proof (get_app_r b (String d "") 0) as Hb.
  rewrite Heq, Hlen, Hb in Ha. simpl in Ha. congruence.
Qed.

Lemma temp_neq_original f : tempFileName f <> f.
Proof.
  unfold tempFileName. intros H. apply (f_equal len) in H.
  rewrite len_app in H. simpl in H. lia.
Qed.

Lemma processed_neq_temp f f' : processedFileName f <> tempFileName f'.
Proof.
  unfold processedFileName, tempFileName. intros H.
  change ".processed" with (".processe" ++ "d") in H.
  change ".transcode-temp" with (".transcode-tem" ++ "p") in H.
  rewrite <- !str_app_assoc in H. by apply last_byte_inj in H.
Qed.

Lemma processed_neq_corrected f f' :
  processedFileName f <> extCorrectedOriginal f'.
Proof.
  unfold processedFileName, extCorrectedOriginal. intros H.
  change ".processed" with (".processe" ++ "d") in H.
  change ".mp4" with (".mp" ++ "4") in H.
  rewrite <- !str_app_assoc in H. by apply last_byte_inj in H.
Qed.

(** The base name of the canonical output is its last element, and ends
    in the canonical extension. *)
Lemma Base_corrected stem :
  exists t, free_of IsPathSeparator t = true /\
            Base (stem ++ ".mp4") = t ++ ".mp4" /\
            (stem = t \/ exists a, stem = a ++ String "/" t).
Proof.
  destruct (last_elem_split stem) as [Hfree | (a & t & -> & Ht)].
  - exists stem. split; [done|]. split; [|by left].
    apply Base_free.
    + destruct stem; discriminate.
    + by rewrite free_of_app, Hfree.
  - exists t. split; [done|]. split; [|right; by exists a].
    rewrite str_app_assoc. simpl. apply Base_after_sep.
    + destruct t; discriminate.
    + by rewrite free_of_app, Ht.
Qed.

Lemma lastDot_processed x :
  lastDot (x ++ ".processed") = Z.of_nat (len x).
Proof. unfold lastDot. by apply LastIndexByte_app. Qed.

(** The marker of a file is never the file itself. *)
Lemma processed_neq_original f : processedFileName f <> f.
Proof.
  intros Heq. unfold processedFileName in Heq.
  set (stem := slice f 0 (Z.to_nat (lastDot f))) in *.
  assert (extCorrectedOriginal f = stem ++ ".mp4") as Hg by done.
  rewrite Hg in Heq.
  destruct (Base_corrected stem) as (t & Ht & HB & Hstem).
  rewrite HB in Heq.
  set (D := Dir (stem ++ ".mp4")) in *.
  assert (f = (D ++ "/." ++ t ++ ".mp4") ++ ".processed") as Hf.
  { rewrite <- Heq at 1. by rewrite !str_app_assoc. }
  assert (stem = D ++ "/." ++ t ++ ".mp4") as Hs.
  { unfold stem. rewrite Hf at 1 2. rewrite lastDot_processed.
    rewrite Nat2Z.id. apply slice_prefix. }
  destruct Hstem as [-> | [a ->]].
  - apply (f_equal len) in Hs. rewrite !len_app in Hs. simpl in Hs. lia.
  - change (D ++ "/." ++ t ++ ".mp4")
      with (D ++ String "/" ("." ++ t ++ ".mp4")) in Hs.
    apply last_elem_unique in Hs as [_ Hs]; [| done |].
    + apply (f_equal len) in Hs. simpl in Hs. rewrite len_app in Hs.
      simpl in Hs. lia.
    + simpl. by rewrite free_of_app, Ht.
Qed.

(** The canonical output path is a fixed point of the derivation. *)
Lemma lastDot_corrected f :
  lastDot (extCorrectedOriginal f)
  = Z.of_nat (len (slice f 0 (Z.to_nat (lastDot f)))).
Proof. unfold extCorrectedOriginal, lastDot at 1. by apply LastIndexByte_app. Qed.

Lemma extCorrectedOriginal_idem f :
  extCorrectedOriginal (extCorrectedOriginal f) = extCorrectedOriginal f.
Proof.
  unfold extCorrectedOriginal at 1. rewrite lastDot_corrected, Nat2Z.id.
  unfold extCorrectedOriginal. by rewrite slice_prefix.
Qed.

Lemma Ext_corrected f : Ext (extCorrectedOriginal f) = ".mp4".
Proof. unfold extCorrectedOriginal. by apply Ext_app. Qed.

Lemma processedFileName_corrected f :
  processedFileName (extCorrectedOriginal f) = processedFileName f.
Proof. unfold processedFileName. by rewrite extCorrectedOriginal_idem. Qed.

End Sentinels.

(** * The iteration, branch by branch *)

Lemma bind_eq {A B} (m : M A) (k : A -> M B) w :
  bind m k w =
    match m w with
    | (Next a, w1, e1) => let '(r, w2, e2) := k a w1 in (r, w2, (e1 ++ e2)%list)
    | (Continue, w1, e1) => (Continue, w1, e1)
    | (Exit, w1, e1) => (Exit, w1, e1)
    end.
Proof. reflexivity. Qed.

Arguments bind : simpl never.

Ltac use_hyps :=
  repeat match goal with
         | H : ?l = _ |- context [?l] => rewrite H
         end.

Ltac unfold_calls :=
  unfold check_slice_bound, when, os_Stat, os_Create, os_Remove, os_Rename,
    ReadFileMetadata, TranscodeFile, NotifyEnd, log, emit, ret, continue, exit,
    read_terminated.

Lemma temp_neq_corrected f f' : tempFileName f <> extCorrectedOriginal f'.
Proof.
  unfold tempFileName, extCorrectedOriginal. intros H.
  change ".transcode-temp" with (".transcode-tem" ++ "p") in H.
  change ".mp4" with (".mp" ++ "4") in H.
  rewrite <- !str_app_assoc in H. by apply last_byte_inj in H.
Qed.

Ltac paths_neq :=
  first [ apply processed_neq_temp | apply processed_neq_original
        | apply processed_neq_corrected | apply temp_neq_original
        | apply temp_neq_corrected
        | (apply not_eq_sym;
           first [ apply processed_neq_temp | apply processed_neq_original
                 | apply processed_neq_corrected | apply temp_neq_original
                 | apply temp_neq_corrected | assumption ])
        | assumption ].

Ltac fs :=
  repeat first [ rewrite lookup_insert_eq | rewrite lookup_delete_eq
               | rewrite lookup_insert_ne by paths_neq
               | rewrite lookup_delete_ne by paths_neq ].

(** Run the computation bind by bind, deciding each branch from the
    hypotheses. *)
Ltac run :=
  repeat first [ rewrite bind_eq | progress use_hyps | progress fs
               | progress simpl ].

Ltac skip_done := do 2 eexists; split; [reflexivity | by repeat split].

(** A candidate stopped by a check changes nothing and starts no session. *)
Lemma loop_body_skip e f w :
  reaches_session e f w = false ->
  exists fl evs, loop_body e f w = (fl, w, evs) /\
    session_ran evs = false /\ mutations evs = [] /\ notified evs = [].
Proof.
  unfold reaches_session. intros H. unfold loop_body. unfold_calls.
  rewrite bind_eq.
  destruct (valid_extension _ _); simpl; [|skip_done].
  rewrite bind_eq.
  destruct (Z.ltb_spec (lastDot f) 0) as [Hd|Hd]; simpl; [skip_done|].
  apply Z.leb_le in Hd. rewrite Hd in H. rewrite bind_eq. simpl.
  destruct (io_error e (Stat (processedFileName f))); simpl.
  { run. skip_done. }
  destruct (files w !! processedFileName f); simpl.
  { run. skip_done. }
  run. destruct (probe_error e f); simpl; [skip_done|].
  destruct (files w !! f); simpl; [|skip_done].
  run. destruct (io_error e (Stat (tempFileName f))); simpl.
  { run. skip_done. }
  destruct (files w !! tempFileName f); simpl; [|done].
  run. skip_done.
Qed.

Lemma reaches_session_spec e f w :
  reaches_session e f w = true ->
  valid_extension (extensions e) (filepath.Ext f) = true /\
  (lastDot f <? 0) = false /\
  io_error e (Stat (processedFileName f)) = false /\
  files w !! processedFileName f = None /\
  probe_error e f = false /\
  (exists O, files w !! f = Some O) /\
  io_error e (Stat (tempFileName f)) = false /\
  files w !! tempFileName f = None.
Proof.
  unfold reaches_session. intros H.
  repeat (apply andb_true_iff in H as [H ?]).
  destruct (files w !! processedFileName f); [done|].
  destruct (files w !! f); [|done].
  destruct (files w !! tempFileName f); [done|].
  repeat split; try (by apply negb_true_iff); eauto. lia.
Qed.

(** A candidate that passes the checks is handed to the session, and the
    rest of the iteration is [conclude] in the world the session leaves. *)
Lemma loop_body_reach e f w :
  reaches_session e f w = true ->
  exists O, files w !! f = Some O /\
    loop_body e f w =
      let '(fl, w', evs) :=
        conclude e f {| SizeInt := O |} (killed (session e f))
                 (lastReport (session e f)) (after_session e f w) in
      (fl, w', (prologue f ++ evs)%list).
Proof.
  intros H. apply reaches_session_spec in H
    as (Hv & Hd & Hio & Hm & Hp & [O HO] & Hio' & Ht).
  exists O. split; [done|].
  unfold loop_body. unfold_calls. run.
  unfold after_session.
  by destruct (conclude _ _ _ _ _ _) as [[fl w'] evs].
Qed.

Lemma session_ran_reaches e f w :
  session_ran (events (loop_body e f w)) = true ->
  reaches_session e f w = true.
Proof.
  intros H. destruct (reaches_session e f w) eqn:Hr; [done|].
  destruct (loop_body_skip e f w Hr) as (fl & evs & Heq & Hs & _).
  rewrite Heq in H. unfold events in H. simpl in H. congruence.
Qed.

Lemma reaches_session_ran e f w :
  reaches_session e f w = true ->
  session_ran (events (loop_body e f w)) = true.
Proof.
  intros H. destruct (loop_body_reach e f w H) as (O & _ & ->).
  by destruct (conclude _ _ _ _ _ _) as [[fl w'] evs].
Qed.

Section Conclude.
Variables (e : env) (f : string) (O : Z).

Lemma conclude_terminated meta k r w :
  terminated w = true ->
  conclude e f meta k r w = (Continue, w, [ENotifyEnd None None ResultError]).
Proof. intros Ht. unfold conclude. unfold_calls. by run. Qed.

Lemma conclude_create_fails meta k r w :
  terminated w = false ->
  io_error e (Create (processedFileName f)) = true ->
  conclude e f meta k r w
  = (Continue, w, [EOs (Create (processedFileName f)) (Some ErrOther);
                   ELog Error (processedFileName f)]).
Proof. intros H1 H2. unfold conclude. unfold_calls. by run. Qed.

Variable w : world.
Hypothesis Hflag : terminated w = false.
Hypothesis Hcreate : io_error e (Create (processedFileName f)) = false.

(** The world after the marker has been created. *)
Let marked : gmap string Z := <[processedFileName f := 0]> (files w).

Lemma conclude_killed r :
  io_error e (Remove (tempFileName f)) = false ->
  exists err,
    (err = None \/ err = Some ErrNotExist) /\
    conclude e f {| SizeInt := O |} true r w
    = (Continue, set_files (delete (tempFileName f) marked) w,
       [EOs (Create (processedFileName f)) None;
        EOs (Remove (tempFileName f)) err]
       ++ (if report_exceeds r O
           then [ELog Info f; ENotifyEnd None r ResultKeepOriginal]
           else []))%list.
Proof.
  intros Hrm. unfold conclude, killed_path, marked. unfold_calls. run.
  destruct (files w !! tempFileName f) as [sz|] eqn:Ht.
  - exists None. split; [by left|]. run.
    destruct r as [[ts]|]; simpl; run; [|done].
    destruct (ts >? O); simpl; by run.
  - exists (Some ErrNotExist). split; [by right|]. run.
    rewrite (delete_id (<[processedFileName f:=0]> (files w))) by (by fs).
    destruct r as [[ts]|]; simpl; run; [|done].
    destruct (ts >? O); simpl; by run.
Qed.

Lemma conclude_killed_remove_fails r :
  io_error e (Remove (tempFileName f)) = true ->
  conclude e f {| SizeInt := O |} true r w
  = (Continue, set_files marked w,
     [EOs (Create (processedFileName f)) None;
      EOs (Remove (tempFileName f)) (Some ErrOther);
      ELog Error (tempFileName f)]).
Proof.
  intros Hrm. unfold conclude, killed_path, marked. unfold_calls. by run.
Qed.

Variable T : Z.
Hypothesis Hprobe : probe_error e (tempFileName f) = false.
Hypothesis Htemp : files w !! tempFileName f = Some T.

Lemma conclude_keep r :
  keep_old e && (T >? O) = true ->
  io_error e (Remove (tempFileName f)) = false ->
  conclude e f {| SizeInt := O |} false r w
  = (Next tt, set_files (delete (tempFileName f) marked) w,
     [EOs (Create (processedFileName f)) None;
      EReadFileMetadata (tempFileName f);
      EOs (Remove (tempFileName f)) None;
      ELog Info f;
      ENotifyEnd (Some {| SizeInt := T |}) None ResultKeepOriginal]).
Proof.
  intros Hk Hrm. unfold conclude, decide_result, marked. unfold_calls. by run.
Qed.

Hypothesis Hreplace : keep_old e && (T >? O) = false.
Hypothesis Horig : is_Some (files w !! f).
Hypothesis Hremove : io_error e (Remove f) = false.

Lemma conclude_replace r :
  io_error e (Rename (tempFileName f) (extCorrectedOriginal f)) = false ->
  conclude e f {| SizeInt := O |} false r w
  = (Next tt,
     set_files (<[extCorrectedOriginal f := T]>
                  (delete (tempFileName f) (delete f marked))) w,
     [EOs (Create (processedFileName f)) None;
      EReadFileMetadata (tempFileName f);
      EOs (Remove f) None;
      EOs (Rename (tempFileName f) (extCorrectedOriginal f)) None;
      ELog Info f;
      ENotifyEnd (Some {| SizeInt := T |}) None ResultReplaced]).
Proof.
  intros Hrn. destruct Horig as [O' HO'].
  pose proof (temp_neq_original f) as Hne.
  unfold conclude, decide_result, marked. unfold_calls. by run.
Qed.

Lemma conclude_rename_fails r :
  io_error e (Rename (tempFileName f) (extCorrectedOriginal f)) = true ->
  conclude e f {| SizeInt := O |} false r w
  = (Continue, set_files (delete f marked) w,
     [EOs (Create (processedFileName f)) None;
      EReadFileMetadata (tempFileName f);
      EOs (Remove f) None;
      EOs (Rename (tempFileName f) (extCorrectedOriginal f)) (Some ErrOther);
      ELog Error (tempFileName f)]).
Proof.
  intros Hrn. destruct Horig as [O' HO'].
  unfold conclude, decide_result, marked. unfold_calls. by run.
Qed.

End Conclude.

(** Case split on whatever the next branch of the driver tests. *)
Ltac split_on :=
  match goal with
  | |- context [terminated ?w] => destruct (terminated w) eqn:?
  | |- context [io_error ?e ?c] => destruct (io_error e c) eqn:?
  | |- context [probe_error ?e ?c] => destruct (probe_error e c) eqn:?
  | |- context [files ?w !! ?p] => destruct (files w !! p) eqn:?
  | |- context [keep_old ?e] => destruct (keep_old e) eqn:?
  | |- context [?a >? ?b] => destruct (a >? b) eqn:?
  end.

Ltac explore := repeat (run; first [done | split_on]); run.

(** Whatever happens after the session, at most one result is notified. *)
Lemma conclude_at_most_one e f meta k r w :
  (List.length (notified (events (conclude e f meta k r w))) <= 1)%nat.
Proof.
  unfold conclude, killed_path, decide_result. unfold_calls. unfold events.
  destruct k, r as [[ts]|]; explore; lia.
Qed.

(** The temp output after the session is what the session left. *)
Lemma after_session_temp e f w :
  files w !! tempFileName f = None ->
  files (after_session e f w) !! tempFileName f = output (session e f).
Proof.
  intros H. unfold after_session. simpl.
  destruct (output (session e f)); [by rewrite lookup_insert_eq | done].
Qed.

Lemma after_session_other e f w p :
  p <> tempFileName f ->
  files (after_session e f w) !! p = files w !! p.
Proof.
  intros H. unfold after_session. simpl.
  destruct (output (session e f)); [by rewrite lookup_insert_ne | done].
Qed.

(** * The claims *)

(** C4. When the session returns with the termination flag set, the driver
    notifies [ResultError] and nothing else happens for the file: no temp
    deletion, no deletion of the original, no rename, no marker creation.
    The file system is left as the session left it, and the iteration ends
    with [continue]. *)
Theorem terminated_session_is_error e f w :
  session_ran (events (loop_body e f w)) = true ->
  terminated (after_session e f w) = true ->
  let r := loop_body e f w in
  events r = (prologue f ++ [ENotifyEnd None None ResultError])%list /\
  notified (events r) = [ResultError] /\
  mutations (events r) = [] /\
  final r = after_session e f w /\
  control r = Continue.
Proof.
  intros Hran Hflag. apply session_ran_reaches in Hran.
  destruct (loop_body_reach e f w Hran) as (O & HO & Heq).
  simpl. rewrite Heq. by rewrite conclude_terminated.
Qed.

Lemma terminated_session_is_error_witness :
  let e := quiet_env true (signalled (600 * MB)) in
  let r := loop_body e "video.flv" (one_file "video.flv" (500 * MB)) in
  events r
  = (prologue "video.flv" ++ [ENotifyEnd None None ResultError])%list /\
  notified (events r) = [ResultError] /\
  mutations (events r) = [] /\
  final r = after_session e "video.flv" (one_file "video.flv" (500 * MB)) /\
  control r = Continue.
Proof.
  apply (terminated_session_is_error
           (quiet_env true (signalled (600 * MB))) "video.flv"
           (one_file "video.flv" (500 * MB))); vm_compute; reflexivity.
Defined.

Arguments after_session : simpl never.

(** The iteration of a file that was handed to the session, in terms of
    what follows the session. *)
Lemma loop_body_session e f w O :
  session_ran (events (loop_body e f w)) = true ->
  files w !! f = Some O ->
  let c := conclude e f {| SizeInt := O |} (killed (session e f))
                    (lastReport (session e f)) (after_session e f w) in
  events (loop_body e f w) = (prologue f ++ events c)%list /\
  final (loop_body e f w) = final c /\
  control (loop_body e f w) = control c /\
  files w !! processedFileName f = None /\
  files w !! tempFileName f = None.
Proof.
  intros Hran HO. apply session_ran_reaches in Hran.
  destruct (loop_body_reach e f w Hran) as (O' & HO' & Heq).
  assert (O' = O) as -> by congruence.
  apply reaches_session_spec in Hran as (_ & _ & _ & Hm & _ & _ & _ & Ht).
  simpl. rewrite Heq.
  by destruct (conclude _ _ _ _ _ _) as [[fl w'] evs].
Qed.

Lemma notified_prologue f evs :
  notified (prologue f ++ evs) = notified evs.
Proof. reflexivity. Qed.

Lemma mutations_prologue f evs :
  mutations (prologue f ++ evs) = mutations evs.
Proof. reflexivity. Qed.

Lemma after_session_original e f w :
  files (after_session e f w) !! f = files w !! f.
Proof. apply after_session_other. apply not_eq_sym, temp_neq_original. Qed.

(** A killed session whose last report does not exceed the original, or
    that has no report, ends without any notification. *)
Lemma killed_without_report_is_silent e f w O :
  session_ran (events (loop_body e f w)) = true ->
  files w !! f = Some O ->
  terminated (after_session e f w) = false ->
  killed (session e f) = true ->
  report_exceeds (lastReport (session e f)) O = false ->
  notified (events (loop_body e f w)) = [].
Proof.
  intros Hran HO Hflag Hk Hrep.
  destruct (loop_body_session e f w O Hran HO) as (-> & _).
  rewrite notified_prologue, Hk.
  destruct (io_error e (Create (processedFileName f))) eqn:Hc.
  { by rewrite conclude_create_fails. }
  destruct (io_error e (Remove (tempFileName f))) eqn:Hr.
  { by rewrite conclude_killed_remove_fails. }
  destruct (conclude_killed e f O _ Hflag Hc (lastReport (session e f)) Hr)
    as (err & _ & ->).
  by rewrite Hrep.
Qed.

(** The kill path proper: the flag is unset, the marker is created, the
    temp output is removed and the original stays. *)
Lemma killed_path_effect e f w O :
  session_ran (events (loop_body e f w)) = true ->
  files w !! f = Some O ->
  terminated (after_session e f w) = false ->
  killed (session e f) = true ->
  io_error e (Create (processedFileName f)) = false ->
  io_error e (Remove (tempFileName f)) = false ->
  let r := loop_body e f w in
  files (final r) !! tempFileName f = None /\
  files (final r) !! f = Some O /\
  files (final r) !! processedFileName f = Some 0 /\
  control r = Continue /\
  (exists err,
      (err = None \/ err = Some ErrNotExist) /\
      mutations (events r) = [EOs (Create (processedFileName f)) None;
                              EOs (Remove (tempFileName f)) err]) /\
  notified (events r)
  = if report_exceeds (lastReport (session e f)) O
    then [ResultKeepOriginal] else [].
Proof.
  intros Hran HO Hflag Hk Hc Hr.
  destruct (loop_body_session e f w O Hran HO) as (He & Hf & Hctl & _).
  simpl. rewrite He, Hf, Hctl, Hk.
  destruct (conclude_killed e f O _ Hflag Hc (lastReport (session e f)) Hr)
    as (err & Herr & ->).
  pose proof (after_session_original e f w) as Hfo.
  remember (after_session e f w) as w1 eqn:Hw1.
  unfold final, control, events. simpl.
  pose proof (temp_neq_original f) as Hne.
  fs. rewrite Hfo.
  repeat split; try done.
  - exists err. split; [done|].
    by destruct (report_exceeds _ _).
  - by destruct (report_exceeds _ _).
Qed.

(** The flag is set when the session returns: only the notification of
    [ResultError] follows. *)
Lemma flag_set_effect e f w O :
  session_ran (events (loop_body e f w)) = true ->
  files w !! f = Some O ->
  terminated (after_session e f w) = true ->
  let r := loop_body e f w in
  notified (events r) = [ResultError] /\
  mutations (events r) = [] /\
  files (final r) !! f = Some O /\
  files (final r) !! tempFileName f = output (session e f).
Proof.
  intros Hran HO Hflag.
  destruct (loop_body_session e f w O Hran HO) as (He & Hf & _ & _ & Ht).
  simpl. rewrite He, Hf, conclude_terminated by done.
  unfold final, events. cbn [fst snd].
  by rewrite after_session_original, after_session_temp.
Qed.

Section Completed.
Variables (e : env) (f : string) (w : world) (O T : Z).
Hypothesis Hran : session_ran (events (loop_body e f w)) = true.
Hypothesis HO : files w !! f = Some O.
Hypothesis Hflag : terminated (after_session e f w) = false.
Hypothesis Hkilled : killed (session e f) = false.
Hypothesis Hout : output (session e f) = Some T.
Hypothesis Hprobe : probe_error e (tempFileName f) = false.
Hypothesis Hcreate : io_error e (Create (processedFileName f)) = false.

(** The file system once the session has returned and the marker exists. *)
Let marked : gmap string Z :=
  <[processedFileName f := 0]> (files (after_session e f w)).

Lemma completed_temp : files (after_session e f w) !! tempFileName f = Some T.
Proof.
  destruct (loop_body_session e f w O Hran HO) as (_ & _ & _ & _ & Ht).
  by rewrite after_session_temp.
Qed.

Lemma completed_original : is_Some (files (after_session e f w) !! f).
Proof. rewrite after_session_original, HO. by eexists. Qed.

(** The transcoded file is bigger and the old one is to be kept. *)
Lemma completed_keep :
  keep_old e && (T >? O) = true ->
  io_error e (Remove (tempFileName f)) = false ->
  let r := loop_body e f w in
  events r
  = (prologue f ++
       [EOs (Create (processedFileName f)) None;
        EReadFileMetadata (tempFileName f);
        EOs (Remove (tempFileName f)) None;
        ELog Info f;
        ENotifyEnd (Some {| SizeInt := T |}) None ResultKeepOriginal])%list /\
  files (final r) = delete (tempFileName f) marked /\
  control r = Next tt.
Proof.
  intros Hk Hrm.
  destruct (loop_body_session e f w O Hran HO) as (He & Hf & Hctl & _).
  simpl. rewrite He, Hf, Hctl, Hkilled.
  by rewrite (conclude_keep e f O _ Hflag Hcreate T Hprobe completed_temp).
Qed.

Hypothesis Hreplace : keep_old e && (T >? O) = false.
Hypothesis Hremove : io_error e (Remove f) = false.

(** Otherwise the original is removed and the temp output renamed. *)
Lemma completed_replace :
  io_error e (Rename (tempFileName f) (extCorrectedOriginal f)) = false ->
  let r := loop_body e f w in
  events r
  = (prologue f ++
       [EOs (Create (processedFileName f)) None;
        EReadFileMetadata (tempFileName f);
        EOs (Remove f) None;
        EOs (Rename (tempFileName f) (extCorrectedOriginal f)) None;
        ELog Info f;
        ENotifyEnd (Some {| SizeInt := T |}) None ResultReplaced])%list /\
  files (final r)
  = <[extCorrectedOriginal f := T]>
      (delete (tempFileName f) (delete f marked)) /\
  control r = Next tt.
Proof.
  intros Hrn.
  destruct (loop_body_session e f w O Hran HO) as (He & Hf & Hctl & _).
  simpl. rewrite He, Hf, Hctl, Hkilled.
  by rewrite (conclude_replace e f O _ Hflag Hcreate T Hprobe completed_temp
                Hreplace completed_original Hremove).
Qed.

(** The rename fails after the original has been removed. *)
Lemma completed_rename_fails :
  io_error e (Rename (tempFileName f) (extCorrectedOriginal f)) = true ->
  let r := loop_body e f w in
  events r
  = (prologue f ++
       [EOs (Create (processedFileName f)) None;
        EReadFileMetadata (tempFileName f);
        EOs (Remove f) None;
        EOs (Rename (tempFileName f) (extCorrectedOriginal f)) (Some ErrOther);
        ELog Error (tempFileName f)])%list /\
  files (final r) = delete f marked /\
  control r = Continue.
Proof.
  intros Hrn.
  destruct (loop_body_session e f w O Hran HO) as (He & Hf & Hctl & _).
  simpl. rewrite He, Hf, Hctl, Hkilled.
  by rewrite (conclude_rename_fails e f O _ Hflag Hcreate T Hprobe
                completed_temp Hreplace completed_original Hremove).
Qed.

End Completed.

Lemma no_faults_io e f c : no_faults e f -> io_error e c = false.
Proof. intros [H _]. apply H. Qed.

Lemma no_faults_probe e f :
  no_faults e f -> probe_error e (tempFileName f) = false.
Proof. by intros [_ H]. Qed.

(** An iteration that ends with [continue] or runs to its end is followed
    by the rest of the list. *)
Lemma Run_next e f rest w :
  terminated w = false ->
  signal_before e f = false ->
  control (loop_body e f w) <> Exit ->
  Run e (f :: rest) w
  = let '(w', evs) := Run e rest (final (loop_body e f w)) in
    (w', (events (loop_body e f w) ++ evs)%list).
Proof.
  intros Ht Hs Hc. simpl. rewrite Hs.
  assert (deliver false w = w) as ->.
  { destruct w as [fs t]. unfold deliver. simpl. by rewrite orb_false_r. }
  rewrite Ht. unfold control, final, events in *.
  destruct (loop_body e f w) as [[[a| |] w'] evs]; simpl in *; done.
Qed.

(** C1 (amended). With keep-old enabled and a session that completed
    normally with the flag unset, [ResultKeepOriginal] is notified exactly
    when the transcoded size is strictly greater than the original size:
    the temp output is removed and the original stays. Otherwise, a tie
    included, the original is removed, the temp output renamed to the
    canonical path and [ResultReplaced] notified. *)
Theorem keep_old_decision e f w O T :
  session_ran (events (loop_body e f w)) = true ->
  files w !! f = Some O ->
  terminated (after_session e f w) = false ->
  killed (session e f) = false ->
  output (session e f) = Some T ->
  keep_old e = true ->
  no_faults e f ->
  let r := loop_body e f w in
  (notified (events r) = [ResultKeepOriginal] <-> T > O) /\
  (T > O ->
     mutations (events r) = [EOs (Create (processedFileName f)) None;
                             EOs (Remove (tempFileName f)) None] /\
     files (final r) !! tempFileName f = None /\
     files (final r) !! f = Some O) /\
  (T <= O ->
     notified (events r) = [ResultReplaced] /\
     mutations (events r)
     = [EOs (Create (processedFileName f)) None;
        EOs (Remove f) None;
        EOs (Rename (tempFileName f) (extCorrectedOriginal f)) None] /\
     files (final r) !! tempFileName f = None /\
     files (final r) !! extCorrectedOriginal f = Some T /\
     (f <> extCorrectedOriginal f -> files (final r) !! f = None)).
Proof.
  intros Hran HO Hflag Hk Hout Hkeep Hnf.
  pose proof (no_faults_probe e f Hnf) as Hp.
  pose proof (temp_neq_original f) as Hne.
  pose proof (temp_neq_corrected f f) as Hnc.
  pose proof (after_session_original e f w) as Hfo.
  destruct (Z.gtb_spec T O) as [Hgt|Hle].
  - assert (keep_old e && (T >? O) = true) as Hb.
    { rewrite Hkeep. simpl. apply Z.gtb_gt. lia. }
    destruct (completed_keep e f w O T Hran HO Hflag Hk Hout Hp
                (no_faults_io e f _ Hnf) Hb (no_faults_io e f _ Hnf))
      as (He & Hf & _).
    simpl. rewrite He, Hf. rewrite notified_prologue, mutations_prologue.
    split; [split; [lia | done] |]. split; [|lia].
    intros _. fs. by rewrite Hfo.
  - assert (keep_old e && (T >? O) = false) as Hb.
    { rewrite Hkeep. simpl. rewrite Z.gtb_ltb. apply Z.ltb_ge. lia. }
    destruct (completed_replace e f w O T Hran HO Hflag Hk Hout Hp
                (no_faults_io e f _ Hnf) Hb (no_faults_io e f _ Hnf)
                (no_faults_io e f _ Hnf))
      as (He & Hf & _).
    simpl. rewrite He, Hf. rewrite notified_prologue, mutations_prologue.
    split; [split; [done | lia] |]. split; [lia|].
    intros _. repeat split; try done.
    + by fs.
    + by fs.
    + intros Hfg. apply not_eq_sym in Hfg. by fs.
Qed.

Lemma keep_old_decision_witness :
  let e := quiet_env true (completes (250 * MB)) in
  let r := loop_body e "video.mkv" (one_file "video.mkv" (200 * MB)) in
  notified (events r) = [ResultKeepOriginal] /\
  files (final r) !! "video.mkv" = Some (200 * MB).
Proof.
  pose proof (keep_old_decision
                (quiet_env true (completes (250 * MB))) "video.mkv"
                (one_file "video.mkv" (200 * MB)) (200 * MB) (250 * MB))
    as H.
  destruct H as (Hiff & Hkeep & _); try (vm_compute; reflexivity).
  { split; [intros c|]; reflexivity. }
  split.
  - apply Hiff. reflexivity.
  - destruct Hkeep as (_ & _ & Hf); [reflexivity|]. exact Hf.
Defined.

(** C1, as claimed, fails on a tie: with keep-old enabled and a transcoded
    file of exactly the original's size the original is replaced. *)
Lemma keep_old_tie_replaces :
  let e := quiet_env true (completes (200 * MB)) in
  let r := loop_body e "video.mkv" (one_file "video.mkv" (200 * MB)) in
  keep_old e = true /\
  files (final r) !! "video.mkv.transcode-temp" = None /\
  notified (events r) = [ResultReplaced] /\
  notified (events r) <> [ResultKeepOriginal] /\
  files (final r) !! "video.mkv" = None /\
  files (final r) !! "video.mp4" = Some (200 * MB).
Proof. vm_compute. repeat split; done. Qed.

(** C2 (amended). When termination was requested during the encode, so
    that the flag is set when the session returns, the driver deletes and
    renames nothing: the original stays, and so does the temp output, as
    the session left it. When the session returns killed with the flag
    unset, and neither the creation of the marker nor the removal fails,
    the temp output is removed and the original stays: the mutations are
    the creation of the marker and that removal. *)
Theorem interrupted_encode_keeps_files e f w O :
  session_ran (events (loop_body e f w)) = true ->
  files w !! f = Some O ->
  let r := loop_body e f w in
  (terminated (after_session e f w) = true ->
     mutations (events r) = [] /\
     files (final r) !! f = Some O /\
     files (final r) !! tempFileName f = output (session e f)) /\
  (terminated (after_session e f w) = false ->
   killed (session e f) = true ->
   io_error e (Create (processedFileName f)) = false ->
   io_error e (Remove (tempFileName f)) = false ->
     files (final r) !! tempFileName f = None /\
     files (final r) !! f = Some O /\
     exists err,
       mutations (events r) = [EOs (Create (processedFileName f)) None;
                               EOs (Remove (tempFileName f)) err]).
Proof.
  intros Hran HO. simpl. split.
  - intros Hflag.
    by destruct (flag_set_effect e f w O Hran HO Hflag) as (_ & ? & ? & ?).
  - intros Hflag Hk Hc Hr.
    destruct (killed_path_effect e f w O Hran HO Hflag Hk Hc Hr)
      as (? & ? & _ & _ & (err & _ & ?) & _).
    eauto.
Qed.

Lemma interrupted_encode_keeps_files_witness :
  let e := quiet_env false (signalled (100 * MB)) in
  let r := loop_body e "video.flv" (one_file "video.flv" (500 * MB)) in
  mutations (events r) = [] /\
  files (final r) !! "video.flv" = Some (500 * MB) /\
  files (final r) !! tempFileName "video.flv" = Some (100 * MB).
Proof.
  apply (interrupted_encode_keeps_files
           (quiet_env false (signalled (100 * MB))) "video.flv"
           (one_file "video.flv" (500 * MB)) (500 * MB));
    vm_compute; reflexivity.
Defined.

(** C2, as claimed, fails: a signal arrives during the encode of
    [video.flv]; when the driver is done with the file the temp output is
    still there, and no call has tried to remove it. *)
Lemma interrupted_encode_leaves_temp :
  let e := quiet_env false (signalled (100 * MB)) in
  let r := loop_body e "video.flv" (one_file "video.flv" (500 * MB)) in
  session_ran (events r) = true /\
  interrupted (session e "video.flv") = true /\
  tempFileName "video.flv" = "video.flv.transcode-temp" /\
  files (final r) !! "video.flv.transcode-temp" = Some (100 * MB) /\
  mutations (events r) = [] /\
  control r = Continue.
Proof. vm_compute. repeat split; done. Qed.

(** C3 (amended). A session that returns killed while the flag is unset,
    with a last report strictly above the original's size, has its temp
    output removed, the original left alone and [ResultKeepOriginal]
    notified, provided the marker creation and the removal do not fail;
    killed with no report, or with a report not above the original's
    size, nothing is notified. When a signal has set the flag, the report
    is not looked at: [ResultError] is notified and the temp output
    stays. *)
Theorem killed_session_outcome e f w O :
  session_ran (events (loop_body e f w)) = true ->
  files w !! f = Some O ->
  let r := loop_body e f w in
  let s := session e f in
  (terminated (after_session e f w) = false -> killed s = true ->
   report_exceeds (lastReport s) O = true ->
   io_error e (Create (processedFileName f)) = false ->
   io_error e (Remove (tempFileName f)) = false ->
     notified (events r) = [ResultKeepOriginal] /\
     files (final r) !! tempFileName f = None /\
     files (final r) !! f = Some O) /\
  (terminated (after_session e f w) = false -> killed s = true ->
   report_exceeds (lastReport s) O = false ->
     notified (events r) = []) /\
  (terminated (after_session e f w) = true ->
     notified (events r) = [ResultError] /\
     files (final r) !! tempFileName f = output s /\
     files (final r) !! f = Some O).
Proof.
  intros Hran HO. simpl. split; [|split].
  - intros Hflag Hk Hrep Hc Hr.
    destruct (killed_path_effect e f w O Hran HO Hflag Hk Hc Hr)
      as (Ht & Hf & _ & _ & _ & Hn).
    rewrite Hrep in Hn. done.
  - intros Hflag Hk Hrep. by apply (killed_without_report_is_silent e f w O).
  - intros Hflag.
    by destruct (flag_set_effect e f w O Hran HO Hflag) as (? & _ & ? & ?).
Qed.

Lemma killed_session_outcome_witness :
  let e := quiet_env true
             (killed_quietly (Some {| TotalSize := 600 * MB |}) (600 * MB)) in
  let r := loop_body e "video.flv" (one_file "video.flv" (500 * MB)) in
  notified (events r) = [ResultKeepOriginal] /\
  files (final r) !! tempFileName "video.flv" = None /\
  files (final r) !! "video.flv" = Some (500 * MB).
Proof.
  apply (killed_session_outcome
           (quiet_env true
              (killed_quietly (Some {| TotalSize := 600 * MB |}) (600 * MB)))
           "video.flv" (one_file "video.flv" (500 * MB)) (500 * MB));
    vm_compute; reflexivity.
Defined.

(** C3, as claimed, fails on the scenario of the specification: a signal
    arrives during the encode, the last report shows 600 MB against an
    original of 500 MB; [ResultError] is notified, not
    [ResultKeepOriginal], and the temp output is not removed. *)
Lemma signalled_with_large_report_is_error :
  let e := quiet_env true (signalled (600 * MB)) in
  let r := loop_body e "video.flv" (one_file "video.flv" (500 * MB)) in
  session_ran (events r) = true /\
  interrupted (session e "video.flv") = true /\
  report_exceeds (lastReport (session e "video.flv")) (500 * MB) = true /\
  notified (events r) = [ResultError] /\
  notified (events r) <> [ResultKeepOriginal] /\
  files (final r) !! "video.flv.transcode-temp" = Some (600 * MB).
Proof. vm_compute. repeat split; done. Qed.

(** C5 (amended). For a file handed to a session at most one result is
    notified. It is [ResultError] when the flag is set on return. With the
    flag unset and no failing call it is [ResultKeepOriginal] for a
    session killed with a last report above the original's size, and for
    a session that completed normally it is [ResultKeepOriginal] when
    keep-old is enabled and the transcoded size is strictly above the
    original's, [ResultReplaced] otherwise. Nothing at all is notified
    for a session killed without such a report. *)
Theorem at_most_one_result e f w O :
  session_ran (events (loop_body e f w)) = true ->
  files w !! f = Some O ->
  let r := loop_body e f w in
  let s := session e f in
  (List.length (notified (events r)) <= 1)%nat /\
  (terminated (after_session e f w) = true ->
     notified (events r) = [ResultError]) /\
  (terminated (after_session e f w) = false -> killed s = true ->
   report_exceeds (lastReport s) O = false ->
     notified (events r) = []) /\
  (terminated (after_session e f w) = false -> no_faults e f ->
   killed s = true -> report_exceeds (lastReport s) O = true ->
     notified (events r) = [ResultKeepOriginal]) /\
  (forall T,
     terminated (after_session e f w) = false -> no_faults e f ->
     killed s = false -> output s = Some T ->
     notified (events r)
     = [if keep_old e && (T >? O) then ResultKeepOriginal
        else ResultReplaced]).
Proof.
  intros Hran HO. simpl. split; [|split; [|split; [|split]]].
  - destruct (loop_body_session e f w O Hran HO) as (-> & _).
    rewrite notified_prologue. apply conclude_at_most_one.
  - intros Hflag.
    by destruct (flag_set_effect e f w O Hran HO Hflag) as (? & _).
  - intros Hflag Hk Hrep. by apply (killed_without_report_is_silent e f w O).
  - intros Hflag Hnf Hk Hrep.
    destruct (killed_path_effect e f w O Hran HO Hflag Hk
                (no_faults_io e f _ Hnf) (no_faults_io e f _ Hnf))
      as (_ & _ & _ & _ & _ & ->).
    by rewrite Hrep.
  - intros T Hflag Hnf Hk HT.
    pose proof (no_faults_probe e f Hnf) as Hp.
    destruct (keep_old e && (T >? O)) eqn:Hb.
    + destruct (completed_keep e f w O T Hran HO Hflag Hk HT Hp
                  (no_faults_io e f _ Hnf) Hb (no_faults_io e f _ Hnf))
        as (-> & _).
      by rewrite notified_prologue.
    + destruct (completed_replace e f w O T Hran HO Hflag Hk HT Hp
                  (no_faults_io e f _ Hnf) Hb (no_faults_io e f _ Hnf)
                  (no_faults_io e f _ Hnf))
        as (-> & _).
      by rewrite notified_prologue.
Qed.

Lemma at_most_one_result_witness :
  let e := quiet_env false (completes (300 * MB)) in
  let r := loop_body e "video.flv" (one_file "video.flv" (500 * MB)) in
  (List.length (notified (events r)) <= 1)%nat.
Proof.
  apply (at_most_one_result
           (quiet_env false (completes (300 * MB))) "video.flv"
           (one_file "video.flv" (500 * MB)) (500 * MB));
    vm_compute; reflexivity.
Defined.

(** C5, as claimed, fails: a session is run on [video.flv] and returns
    killed without a report while the flag is unset; the partial output is
    discarded and no result is notified. *)
Lemma killed_without_report_notifies_nothing :
  let e := quiet_env true (killed_quietly None (100 * MB)) in
  let r := loop_body e "video.flv" (one_file "video.flv" (500 * MB)) in
  session_ran (events r) = true /\
  notified (events r) = [] /\
  files (final r) !! "video.flv.transcode-temp" = None.
Proof. vm_compute. repeat split; done. Qed.

(** C10. On the replace path the original is removed before the temp
    output is renamed. When the rename fails nothing is restored and
    nothing notified: the iteration ends with [continue] and the loop goes
    on with the next candidate, no file is left at the original's path,
    the transcoded data is in the temp output only, and the marker
    exists. *)
Theorem failed_rename_loses_original e f w O T :
  session_ran (events (loop_body e f w)) = true ->
  files w !! f = Some O ->
  terminated (after_session e f w) = false ->
  killed (session e f) = false ->
  output (session e f) = Some T ->
  probe_error e (tempFileName f) = false ->
  keep_old e && (T >? O) = false ->
  io_error e (Create (processedFileName f)) = false ->
  io_error e (Remove f) = false ->
  io_error e (Rename (tempFileName f) (extCorrectedOriginal f)) = true ->
  let r := loop_body e f w in
  mutations (events r)
  = [EOs (Create (processedFileName f)) None;
     EOs (Remove f) None;
     EOs (Rename (tempFileName f) (extCorrectedOriginal f)) (Some ErrOther)] /\
  notified (events r) = [] /\
  control r = Continue /\
  files (final r) !! f = None /\
  files (final r) !! tempFileName f = Some T /\
  files (final r) !! processedFileName f = Some 0 /\
  (f <> extCorrectedOriginal f ->
   files (final r) !! extCorrectedOriginal f
   = files w !! extCorrectedOriginal f) /\
  (forall rest, terminated w = false -> signal_before e f = false ->
     Run e (f :: rest) w
     = let '(w', evs) := Run e rest (final r) in
       (w', (events r ++ evs)%list)).
Proof.
  intros Hran HO Hflag Hk Hout Hp Hb Hc Hrm Hrn.
  destruct (completed_rename_fails e f w O T Hran HO Hflag Hk Hout Hp Hc Hb
              Hrm Hrn) as (He & Hf & Hctl).
  pose proof (completed_temp e f w O T Hran HO Hout) as Ht.
  pose proof (temp_neq_original f) as Hne.
  simpl. rewrite He, Hf, Hctl, notified_prologue, mutations_prologue.
  split_and!.
  - done.
  - done.
  - done.
  - by fs.
  - by fs.
  - by fs.
  - intros Hfg. fs. apply after_session_other. apply not_eq_sym.
    apply temp_neq_corrected.
  - intros rest Hw Hs. rewrite <- He.
    apply Run_next; [done | done |]. by rewrite Hctl.
Qed.

Lemma failed_rename_loses_original_witness :
  let e := rename_fails_env false (completes (300 * MB)) in
  let r := loop_body e "video.flv" (one_file "video.flv" (500 * MB)) in
  mutations (events r)
  = [EOs (Create (processedFileName "video.flv")) None;
     EOs (Remove "video.flv") None;
     EOs (Rename (tempFileName "video.flv") (extCorrectedOriginal "video.flv"))
         (Some ErrOther)] /\
  notified (events r) = [] /\
  control r = Continue /\
  files (final r) !! "video.flv" = None /\
  files (final r) !! tempFileName "video.flv" = Some (300 * MB) /\
  files (final r) !! processedFileName "video.flv" = Some 0.
Proof.
  pose proof (failed_rename_loses_original
                (rename_fails_env false (completes (300 * MB))) "video.flv"
                (one_file "video.flv" (500 * MB)) (500 * MB) (300 * MB)) as H.
  destruct H as (H1 & H2 & H3 & H4 & H5 & H6 & _);
    try (vm_compute; reflexivity).
  repeat split; assumption.
Defined.

(** With the flag unset the first call after the session is the creation
    of the marker, and when that fails no other mutation is tried. *)
Lemma conclude_creates_first e f meta k r w :
  terminated w = false ->
  exists err rest,
    events (conclude e f meta k r w)
    = EOs (Create (processedFileName f)) err :: rest /\
    (err <> None -> mutations rest = []).
Proof.
  intros Hflag.
  destruct (io_error e (Create (processedFileName f))) eqn:Hc.
  { rewrite conclude_create_fails by done. by eexists _, _. }
  unfold conclude. unfold_calls. run.
  destruct ((if k then killed_path e f meta r else decide_result e f meta)
              (set_files (<[processedFileName f:=0]> (files w)) w))
    as [[fl w'] evs].
  by exists None, evs.
Qed.

Lemma sentinel_not_reached e f w :
  is_Some (files w !! processedFileName f) \/
  is_Some (files w !! tempFileName f) ->
  reaches_session e f w = false.
Proof.
  unfold reaches_session.
  intros [[sz ->] | [sz ->]]; simpl; by rewrite ?andb_false_r.
Qed.

(** A file whose marker exists is left alone, whatever the environment. *)
Lemma marked_file_is_skipped e f w :
  is_Some (files w !! processedFileName f) ->
  let r := loop_body e f w in
  session_ran (events r) = false /\
  mutations (events r) = [] /\
  notified (events r) = [] /\
  final r = w.
Proof.
  intros Hm. simpl.
  destruct (loop_body_skip e f w (sentinel_not_reached e f w (or_introl Hm)))
    as (fl & evs & -> & ? & ? & ?).
  done.
Qed.

(** C6. A candidate whose processed marker exists, or whose temp marker
    exists, is never handed to a session, and nothing is changed or
    notified for it. With the marker present the iteration ends at the
    first [os.Stat]; with only the temp marker present it ends with a
    warning (provided the checks before it pass without an error). *)
Theorem sentinel_skips_session e f w :
  is_Some (files w !! processedFileName f) \/
  is_Some (files w !! tempFileName f) ->
  let r := loop_body e f w in
  session_ran (events r) = false /\
  mutations (events r) = [] /\
  notified (events r) = [] /\
  final r = w /\
  (valid_extension (extensions e) (filepath.Ext f) = true ->
   0 <= lastDot f ->
   io_error e (Stat (processedFileName f)) = false ->
     (is_Some (files w !! processedFileName f) ->
        events r = [EOs (Stat (processedFileName f)) None] /\
        control r = Continue) /\
     (files w !! processedFileName f = None ->
      probe_error e f = false ->
      is_Some (files w !! f) ->
      io_error e (Stat (tempFileName f)) = false ->
        events r = [EOs (Stat (processedFileName f)) (Some ErrNotExist);
                    ELog Info f;
                    EReadFileMetadata f;
                    EOs (Stat (tempFileName f)) None;
                    ELog Warning f] /\
        control r = Continue)).
Proof.
  intros Hs. simpl.
  destruct (loop_body_skip e f w (sentinel_not_reached e f w Hs))
    as (fl & evs & Heq & ? & ? & ?).
  split_and!; try (by rewrite Heq). clear Heq.
  intros Hv Hd Hio.
  assert ((lastDot f <? 0) = false) as Hd' by lia.
  split.
  - intros [sz Hm]. unfold loop_body. unfold_calls. by run.
  - intros Hm Hp [O HO] Hio'.
    destruct Hs as [[sz Hsz] | [sz Hsz]]; [congruence|].
    unfold loop_body. unfold_calls. by run.
Qed.

Lemma sentinel_skips_session_witness :
  let e := quiet_env false (completes (300 * MB)) in
  let w := {| files := {[ "video.mp4" := 500 * MB;
                          "./.video.mp4.processed" := 0 ]};
              terminated := false |} in
  let r := loop_body e "video.mp4" w in
  session_ran (events r) = false /\
  mutations (events r) = [] /\
  notified (events r) = [] /\
  final r = w.
Proof.
  pose proof (sentinel_skips_session
                (quiet_env false (completes (300 * MB))) "video.mp4"
                {| files := {[ "video.mp4" := 500 * MB;
                               "./.video.mp4.processed" := 0 ]};
                   terminated := false |}) as H.
  destruct H as (H1 & H2 & H3 & H4 & _).
  { left. vm_compute. by eexists. }
  repeat split; assumption.
Defined.

(** Once the marker exists no later pass over the file starts a session or
    changes anything. *)
Lemma later_passes_skip es f w :
  is_Some (files w !! processedFileName f) ->
  session_ran (later_passes es f w) = false /\
  mutations (later_passes es f w) = [].
Proof.
  revert w. induction es as [|e es IH]; intros w Hm; [done|].
  destruct (marked_file_is_skipped e f w Hm) as (Hs & Hmu & _ & Hfin).
  cbn [later_passes]. rewrite Hfin.
  destruct (IH w Hm) as [IHs IHm].
  unfold session_ran, mutations in *.
  by rewrite existsb_app, List.filter_app, Hs, Hmu, IHs, IHm.
Qed.

(** C9. With the flag unset when the session returns, the first call of
    the driver is the creation of the processed marker, before any removal
    or rename, and no removal or rename is tried when it fails; this holds
    for a killed session too. A killed file whose partial output is
    discarded is thus marked processed, its original is left in place, and
    every later iteration over it skips it without a session. *)
Theorem marker_before_mutations e f w O :
  session_ran (events (loop_body e f w)) = true ->
  files w !! f = Some O ->
  terminated (after_session e f w) = false ->
  let r := loop_body e f w in
  (exists err rest,
      events r
      = (prologue f ++ EOs (Create (processedFileName f)) err :: rest)%list /\
      (err <> None -> mutations rest = [])) /\
  (killed (session e f) = true ->
   io_error e (Create (processedFileName f)) = false ->
   io_error e (Remove (tempFileName f)) = false ->
     files (final r) !! processedFileName f = Some 0 /\
     files (final r) !! tempFileName f = None /\
     files (final r) !! f = Some O /\
     (forall e',
        let r' := loop_body e' f (final r) in
        session_ran (events r') = false /\
        mutations (events r') = [] /\
        final r' = final r) /\
     (forall es,
        session_ran (later_passes es f (final r)) = false /\
        mutations (later_passes es f (final r)) = [])).
Proof.
  intros Hran HO Hflag. simpl. split.
  - destruct (loop_body_session e f w O Hran HO) as (-> & _).
    destruct (conclude_creates_first e f {| SizeInt := O |}
                (killed (session e f)) (lastReport (session e f))
                (after_session e f w) Hflag) as (err & rest & -> & Hrest).
    by exists err, rest.
  - intros Hk Hc Hr.
    destruct (killed_path_effect e f w O Hran HO Hflag Hk Hc Hr)
      as (Ht & Hf & Hm & _).
    split_and!; try done.
    + intros e'.
      destruct (marked_file_is_skipped e' f (final (loop_body e f w)))
        as (? & ? & _ & ?); [by rewrite Hm|done].
    + intros es. apply later_passes_skip. by rewrite Hm.
Qed.

Lemma marker_before_mutations_witness :
  let e := quiet_env true (killed_quietly None (100 * MB)) in
  let r := loop_body e "video.flv" (one_file "video.flv" (500 * MB)) in
  files (final r) !! processedFileName "video.flv" = Some 0 /\
  files (final r) !! tempFileName "video.flv" = None /\
  files (final r) !! "video.flv" = Some (500 * MB) /\
  (forall e',
     let r' := loop_body e' "video.flv" (final r) in
     session_ran (events r') = false /\
     mutations (events r') = [] /\
     final r' = final r) /\
  (forall es,
     session_ran (later_passes es "video.flv" (final r)) = false /\
     mutations (later_passes es "video.flv" (final r)) = []).
Proof.
  apply (marker_before_mutations
           (quiet_env true (killed_quietly None (100 * MB))) "video.flv"
           (one_file "video.flv" (500 * MB)) (500 * MB));
    vm_compute; reflexivity.
Defined.

(** When [ResultReplaced] is what was notified, the marker exists, the
    temp output is gone and the canonical output is there. *)
Lemma conclude_replaced_inv e f meta k r w fl w' evs :
  conclude e f meta k r w = (fl, w', evs) ->
  notified evs = [ResultReplaced] ->
  files w' !! processedFileName f = Some 0 /\
  files w' !! tempFileName f = None /\
  is_Some (files w' !! extCorrectedOriginal f).
Proof.
  set (P := fun (w' : world) (evs : list event) =>
              notified evs = [ResultReplaced] ->
              files w' !! processedFileName f = Some 0 /\
              files w' !! tempFileName f = None /\
              is_Some (files w' !! extCorrectedOriginal f)).
  intros Heq. change (P w' evs). revert Heq.
  unfold conclude, killed_path, decide_result. unfold_calls.
  destruct k, r as [[ts]|]; explore.
  all: intros ?; simplify_eq; unfold P; simpl; intros Hn; try discriminate.
  all: fs; by eauto.
Qed.

(** C7. A file that a first run replaced is left with its processed
    marker, the canonical extension and no temp output; a second pass over
    it, in any environment, stops at the sentinel check: no session, no
    mutation, no notification, the file system unchanged. *)
Theorem replaced_file_is_skipped e f w :
  notified (events (loop_body e f w)) = [ResultReplaced] ->
  let r1 := loop_body e f w in
  let g := extCorrectedOriginal f in
  (files (final r1) !! processedFileName g = Some 0 /\
   filepath.Ext g = ".mp4" /\
   extCorrectedOriginal g = g /\
   files (final r1) !! tempFileName f = None /\
   is_Some (files (final r1) !! g)) /\
  (forall e',
     let r2 := loop_body e' g (final r1) in
     session_ran (events r2) = false /\
     mutations (events r2) = [] /\
     notified (events r2) = [] /\
     final r2 = final r1) /\
  (forall e',
     let b := Run e' [g] (final r1) in
     files b.1 = files (final r1) /\
     session_ran b.2 = false /\
     mutations b.2 = []).
Proof.
  intros Hn. simpl.
  assert (files (final (loop_body e f w)) !! processedFileName f = Some 0 /\
          files (final (loop_body e f w)) !! tempFileName f = None /\
          is_Some (files (final (loop_body e f w)) !! extCorrectedOriginal f))
    as (Hm & Ht & Hg).
  { destruct (reaches_session e f w) eqn:Hr.
    - destruct (loop_body_reach e f w Hr) as (O & _ & Heq).
      rewrite Heq in Hn |- *.
      destruct (conclude e f {| SizeInt := O |} (killed (session e f))
                  (lastReport (session e f)) (after_session e f w))
        as [[fl w'] evs] eqn:Hc.
      apply (conclude_replaced_inv _ _ _ _ _ _ _ _ _ Hc Hn).
    - destruct (loop_body_skip e f w Hr) as (fl & evs & Heq & _ & _ & Hno).
      rewrite Heq in Hn. unfold events in Hn. simpl in Hn. congruence. }
  rewrite processedFileName_corrected.
  split; [|split].
  - split_and!; try done.
    + apply Ext_corrected.
    + apply extCorrectedOriginal_idem.
  - intros e'. apply marked_file_is_skipped.
    by rewrite processedFileName_corrected, Hm.
  - intros e'. cbn [Run].
    set (w1 := deliver _ _).
    destruct (terminated (final (loop_body e f w))
              || signal_before e' (extCorrectedOriginal f)); [done|].
    destruct (marked_file_is_skipped e' (extCorrectedOriginal f) w1)
      as (Hs & Hmu & _ & Hfin).
    { rewrite processedFileName_corrected. unfold w1. simpl. by rewrite Hm. }
    unfold final, events in *.
    destruct (loop_body e' (extCorrectedOriginal f) w1)
      as [[[a| |] w2] evs]; simpl in *; subst w2;
      rewrite ?app_nil_r; done.
Qed.

Lemma replaced_file_is_skipped_witness :
  let e := quiet_env false (completes (300 * MB)) in
  let r1 := loop_body e "video.flv" (one_file "video.flv" (500 * MB)) in
  let r2 := loop_body e (extCorrectedOriginal "video.flv") (final r1) in
  files (final r1) !! "./.video.mp4.processed" = Some 0 /\
  session_ran (events r2) = false /\
  mutations (events r2) = [] /\
  notified (events r2) = [] /\
  final r2 = final r1.
Proof.
  pose proof (replaced_file_is_skipped
                (quiet_env false (completes (300 * MB))) "video.flv"
                (one_file "video.flv" (500 * MB))) as H.
  destruct H as ((H1 & _) & H2 & _); [vm_compute; reflexivity|].
  split; [exact H1 | apply H2].
Defined.

Lemma valid_extension_In exts ext :
  In ext exts -> valid_extension exts ext = true.
Proof.
  induction exts as [|x exts IH]; simpl; [done|].
  intros [-> | H].
  - by rewrite String.eqb_refl.
  - destruct (String.eqb ext x); [done | by apply IH].
Qed.

(** C8 (amended). For an input [dir/name.ext] where [name] has no
    separator and [ext] is an extension as [filepath.Ext] returns one, a
    dot followed by bytes that are neither a dot nor a separator, and is
    in the allow-list: the canonical output is [dir/name.mp4] and the temp
    path is the input with [.transcode-temp] appended. The processed
    marker is [D/.name.mp4.processed] where [D] is what [filepath.Dir]
    gives for the canonical output, the lexically cleaned [dir/]; it is
    [dir] itself when [dir] is made of plain elements. *)
Theorem derived_paths dir name e exts :
  free_of filepath.IsPathSeparator name = true ->
  free_of filepath.IsPathSeparator e = true ->
  free_of is_dot e = true ->
  In (String "." e) exts ->
  let ext := String "." e in
  let f := dir ++ "/" ++ name ++ ext in
  filepath.Ext f = ext /\
  valid_extension exts (filepath.Ext f) = true /\
  extCorrectedOriginal f = dir ++ "/" ++ name ++ ".mp4" /\
  tempFileName f = dir ++ "/" ++ name ++ ext ++ ".transcode-temp" /\
  processedFileName f
  = filepath.Clean (dir ++ "/") ++ "/." ++ name ++ ".mp4.processed" /\
  (plain_dir dir ->
   processedFileName f = dir ++ "/." ++ name ++ ".mp4.processed").
Proof.
  intros Hname Hsep Hdot Hin. simpl.
  assert (dir ++ "/" ++ name ++ String "." e
          = (dir ++ "/" ++ name) ++ String "." e) as Hf
    by (by rewrite !str_app_assoc).
  assert (filepath.Ext (dir ++ "/" ++ name ++ String "." e) = String "." e)
    as HExt by (rewrite Hf; by apply Ext_app).
  assert (extCorrectedOriginal (dir ++ "/" ++ name ++ String "." e)
          = dir ++ "/" ++ name ++ ".mp4") as Hg.
  { unfold extCorrectedOriginal, lastDot. rewrite Hf.
    rewrite LastIndexByte_app by done.
    by rewrite Nat2Z.id, slice_prefix, !str_app_assoc. }
  assert (processedFileName (dir ++ "/" ++ name ++ String "." e)
          = filepath.Clean (dir ++ "/") ++ "/." ++ name ++ ".mp4.processed")
    as Hm.
  { unfold processedFileName. rewrite Hg.
    change (dir ++ "/" ++ name ++ ".mp4")
      with (dir ++ String "/" (name ++ ".mp4")).
    assert (free_of filepath.IsPathSeparator (name ++ ".mp4") = true) as Hn
      by (by rewrite free_of_app, Hname).
    rewrite Dir_after_sep, Base_after_sep by (done || by destruct name).
    by rewrite !str_app_assoc. }
  split_and!; try done.
  - rewrite HExt. by apply valid_extension_In.
  - unfold tempFileName. by rewrite !str_app_assoc.
  - intros Hplain. by rewrite Hm, Clean_plain_dir.
Qed.

Lemma derived_paths_witness :
  let f := "movies/2020/video.flv" in
  filepath.Ext f = ".flv" /\
  valid_extension default_extensions (filepath.Ext f) = true /\
  extCorrectedOriginal f = "movies/2020/video.mp4" /\
  tempFileName f = "movies/2020/video.flv.transcode-temp" /\
  processedFileName f = "movies/2020/.video.mp4.processed".
Proof.
  pose proof (derived_paths "movies/2020" "video" "flv" default_extensions)
    as H.
  destruct H as (H1 & H2 & H3 & H4 & _ & H6); try reflexivity.
  { right. right. by left. }
  split_and!; try assumption.
  apply H6. exists "movies", ["2020"]. split; [reflexivity | by left].
Defined.

(** C8, as claimed, fails for the marker when the directory is not in
    its cleaned form: for [a/../video.flv] the marker is looked up in the
    current directory, and for a file in the root directory the marker
    path starts with two separators. It also fails when the allowed
    [ext] is not what [filepath.Ext] cuts off: with [.tar.gz] (and [.gz])
    allowed, [d/name.tar.gz] gives [d/name.tar.mp4], not [d/name.mp4];
    with the empty extension allowed, [a.b/video] gives [a.mp4]. *)
Lemma marker_directory_is_cleaned :
  filepath.Ext "a/../video.flv" = ".flv" /\
  valid_extension default_extensions ".flv" = true /\
  extCorrectedOriginal "a/../video.flv" = "a/../video.mp4" /\
  processedFileName "a/../video.flv" = "./.video.mp4.processed" /\
  processedFileName "a/../video.flv" <> "a/../.video.mp4.processed" /\
  processedFileName "/video.flv" = "//.video.mp4.processed" /\
  processedFileName "/video.flv" <> "/.video.mp4.processed" /\
  valid_extension [".tar.gz"; ".gz"] (filepath.Ext "d/name.tar.gz") = true /\
  extCorrectedOriginal "d/name.tar.gz" = "d/name.tar.mp4" /\
  extCorrectedOriginal "d/name.tar.gz" <> "d/name.mp4" /\
  valid_extension [""] (filepath.Ext "a.b/video") = true /\
  extCorrectedOriginal "a.b/video" = "a.mp4" /\
  extCorrectedOriginal "a.b/video" <> "a.b/video.mp4".
Proof. vm_compute. repeat split; done. Qed.

(** * The path functions on examples *)

Example Ext_flv : filepath.Ext "a/b.c/video.flv" = ".flv".
Proof. reflexivity. Qed.

Example Ext_none : filepath.Ext "a/b.c/video" = "".
Proof. reflexivity. Qed.

Example Base_plain : filepath.Base "a/b/video.mp4" = "video.mp4".
Proof. reflexivity. Qed.

Example Base_slashes : filepath.Base "///" = "/".
Proof. reflexivity. Qed.

Example Dir_plain : filepath.Dir "a/b/video.mp4" = "a/b".
Proof. reflexivity. Qed.

Example Dir_bare : filepath.Dir "video.mp4" = ".".
Proof. reflexivity. Qed.

Example Dir_root : filepath.Dir "/video.mp4" = "/".
Proof. reflexivity. Qed.

Example Clean_dotdot : filepath.Clean "a/../../b/./c//d/.." = "../b/c".
Proof. reflexivity. Qed.

Example Clean_rooted : filepath.Clean "/../a/b/../c/" = "/a/c".
Proof. reflexivity. Qed.

(** The scenarios of the specification. *)

Example scenario_replaced :
  let r := loop_body (quiet_env false (completes (300 * MB))) "video.flv"
                     (one_file "video.flv" (500 * MB)) in
  notified (events r) = [ResultReplaced] /\
  files (final r) !! "video.flv" = None /\
  files (final r) !! "video.mp4" = Some (300 * MB).
Proof. vm_compute. repeat split; done. Qed.

Example scenario_kept :
  let r := loop_body (quiet_env true (completes (250 * MB))) "video.mkv"
                     (one_file "video.mkv" (200 * MB)) in
  notified (events r) = [ResultKeepOriginal] /\
  files (final r) !! "video.mkv" = Some (200 * MB) /\
  files (final r) !! "video.mkv.transcode-temp" = None.
Proof. vm_compute. repeat split; done. Qed.

(** * More of the driver *)

Lemma deliver_false w : deliver false w = w.
Proof. destruct w as [fs t]. unfold deliver. simpl. by rewrite orb_false_r. Qed.

Lemma deliver_terminated s w : terminated w = true -> deliver s w = w.
Proof. destruct w as [fs t]. unfold deliver. simpl. by intros ->. Qed.

Lemma Run_terminated e l w : terminated w = true -> Run e l w = (w, []).
Proof.
  intros Ht. destruct l as [|f l]; [done|].
  cbn [Run]. rewrite (deliver_terminated _ _ Ht). by rewrite Ht.
Qed.

Lemma loop_body_invalid e f w :
  valid_extension (extensions e) (filepath.Ext f) = false ->
  loop_body e f w = (Continue, w, []).
Proof. intros Hv. unfold loop_body. unfold_calls. by run. Qed.

(** X1. A file whose extension is not in the allow-list is invisible to
    the run: its iteration performs no call at all, not even a stat, and
    the batch goes on as if the file were not in the list. *)
Theorem foreign_extension_is_ignored e f rest w :
  valid_extension (extensions e) (filepath.Ext f) = false ->
  loop_body e f w = (Continue, w, []) /\
  (signal_before e f = false -> Run e (f :: rest) w = Run e rest w).
Proof.
  intros Hv. split; [by apply loop_body_invalid|].
  intros Hs. cbn [Run]. rewrite Hs, deliver_false.
  destruct (terminated w) eqn:Ht.
  - by rewrite Run_terminated.
  - rewrite loop_body_invalid by done.
    by destruct (Run e rest w) as [w' evs].
Qed.

Lemma foreign_extension_is_ignored_witness :
  let e := quiet_env false (completes (300 * MB)) in
  let w := one_file "notes.txt" 100 in
  loop_body e "notes.txt" w = (Continue, w, []) /\
  Run e ["notes.txt"; "notes.txt"] w = Run e ["notes.txt"] w.
Proof.
  pose proof (foreign_extension_is_ignored
                (quiet_env false (completes (300 * MB))) "notes.txt"
                ["notes.txt"] (one_file "notes.txt" 100)) as H.
  destruct H as [H1 H2]; [reflexivity|].
  split; [exact H1 | apply H2; reflexivity].
Defined.

(** X2. An [os.Stat] that fails for another reason than a missing file
    makes the driver log an error and skip the candidate, for the marker
    as for the temp file: no session, no mutation, no notification. *)
Theorem stat_error_skips_candidate e f w :
  valid_extension (extensions e) (filepath.Ext f) = true ->
  0 <= lastDot f ->
  (io_error e (Stat (processedFileName f)) = true ->
     loop_body e f w
     = (Continue, w, [EOs (Stat (processedFileName f)) (Some ErrOther);
                      ELog Error (processedFileName f)])) /\
  (io_error e (Stat (processedFileName f)) = false ->
   files w !! processedFileName f = None ->
   probe_error e f = false ->
   is_Some (files w !! f) ->
   io_error e (Stat (tempFileName f)) = true ->
     loop_body e f w
     = (Continue, w, [EOs (Stat (processedFileName f)) (Some ErrNotExist);
                      ELog Info f;
                      EReadFileMetadata f;
                      EOs (Stat (tempFileName f)) (Some ErrOther);
                      ELog Error (tempFileName f)])).
Proof.
  intros Hv Hd. assert ((lastDot f <? 0) = false) as Hd' by lia. split.
  - intros Hio. unfold loop_body. unfold_calls. by run.
  - intros Hio Hm Hp [O HO] Hio'. unfold loop_body. unfold_calls. by run.
Qed.

Lemma stat_error_skips_candidate_witness :
  let e := env_with default_extensions false is_stat (completes (300 * MB)) in
  let w := one_file "video.flv" (500 * MB) in
  loop_body e "video.flv" w
  = (Continue, w, [EOs (Stat (processedFileName "video.flv")) (Some ErrOther);
                   ELog Error (processedFileName "video.flv")]).
Proof.
  apply (stat_error_skips_candidate
           (env_with default_extensions false is_stat (completes (300 * MB)))
           "video.flv" (one_file "video.flv" (500 * MB)));
    vm_compute; congruence.
Defined.

(** X3. The loop looks at the termination flag before every file: with
    the flag set nothing is done for any file of the list, and a signal
    that arrives during an encode ends the batch after the notification
    of [ResultError] for that file, whatever files are left. *)
Theorem termination_ends_the_batch e f rest w :
  (terminated w = true -> Run e (f :: rest) w = (w, [])) /\
  (terminated w = false -> signal_before e f = true ->
     Run e (f :: rest) w = (deliver true w, [])) /\
  (terminated w = false -> signal_before e f = false ->
   session_ran (events (loop_body e f w)) = true ->
   terminated (after_session e f w) = true ->
     Run e (f :: rest) w
     = (after_session e f w,
        (prologue f ++ [ENotifyEnd None None ResultError])%list)).
Proof.
  split; [|split].
  - apply Run_terminated.
  - intros Ht Hs. cbn [Run]. rewrite Hs. unfold deliver at 1. simpl.
    by rewrite orb_true_r.
  - intros Ht Hs Hran Hflag. cbn [Run]. rewrite Hs, deliver_false, Ht.
    apply session_ran_reaches in Hran.
    destruct (loop_body_reach e f w Hran) as (O & _ & ->).
    rewrite conclude_terminated by done.
    rewrite Run_terminated by done. by rewrite app_nil_r.
Qed.

Lemma termination_ends_the_batch_witness :
  let e := quiet_env false (signalled (100 * MB)) in
  let w := {| files := {[ "a.flv" := 500 * MB; "b.flv" := 400 * MB ]};
              terminated := false |} in
  Run e ["a.flv"; "b.flv"] w
  = (after_session e "a.flv" w,
     (prologue "a.flv" ++ [ENotifyEnd None None ResultError])%list).
Proof.
  apply (termination_ends_the_batch
           (quiet_env false (signalled (100 * MB))) "a.flv" ["b.flv"]
           {| files := {[ "a.flv" := 500 * MB; "b.flv" := 400 * MB ]};
              terminated := false |}); vm_compute; reflexivity.
Defined.







(** X7. With keep-old disabled the size is not looked at: a session that
    completed normally always replaces the original, also by a bigger
    file. *)
Theorem without_keep_old_always_replaces e f w O T :
  session_ran (events (loop_body e f w)) = true ->
  files w !! f = Some O ->
  terminated (after_session e f w) = false ->
  killed (session e f) = false ->
  output (session e f) = Some T ->
  keep_old e = false ->
  no_faults e f ->
  let r := loop_body e f w in
  notified (events r) = [ResultReplaced] /\
  files (final r) !! extCorrectedOriginal f = Some T /\
  files (final r) !! tempFileName f = None /\
  (f <> extCorrectedOriginal f -> files (final r) !! f = None).
Proof.
  intros Hran HO Hflag Hk Hout Hkeep Hnf.
  assert (keep_old e && (T >? O) = false) as Hb by (by rewrite Hkeep).
  pose proof (temp_neq_original f) as Hne.
  destruct (completed_replace e f w O T Hran HO Hflag Hk Hout
              (no_faults_probe e f Hnf) (no_faults_io e f _ Hnf) Hb
              (no_faults_io e f _ Hnf) (no_faults_io e f _ Hnf))
    as (He & Hf & _).
  simpl. rewrite He, Hf, notified_prologue.
  split_and!; try done.
  - by fs.
  - by fs.
  - intros Hfg. apply not_eq_sym in Hfg. by fs.
Qed.

Lemma without_keep_old_always_replaces_witness :
  let e := quiet_env false (completes (500 * MB)) in
  let r := loop_body e "video.mkv" (one_file "video.mkv" (200 * MB)) in
  notified (events r) = [ResultReplaced] /\
  files (final r) !! extCorrectedOriginal "video.mkv" = Some (500 * MB) /\
  files (final r) !! tempFileName "video.mkv" = None.
Proof.
  pose proof (without_keep_old_always_replaces
                (quiet_env false (completes (500 * MB))) "video.mkv"
                (one_file "video.mkv" (200 * MB)) (200 * MB) (500 * MB)) as H.
  destruct H as (H1 & H2 & H3 & _); try (vm_compute; reflexivity).
  { split; [intros c|]; reflexivity. }
  split_and!; assumption.
Defined.

Section ExtensionFacts.
Import filepath.
Local Open Scope nat_scope.
Local Arguments String.append !_ _ / : simpl nomatch.

Lemma substring_split s i :
  i <= len s ->
  String.substring 0 i s ++ String.substring i (len s - i) s = s.
Proof.
  revert i. induction s as [|c s IH]; intros i Hi; simpl in Hi.
  - by destruct i.
  - destruct i as [|i]; simpl.
    + by rewrite substring_all.
    + by rewrite IH by lia.
Qed.

Lemma slice_split s i : i <= len s -> slice s 0 i ++ slice s i (len s) = s.
Proof.
  intros Hi. unfold slice. rewrite Nat.sub_0_r. by apply substring_split.
Qed.

(** The scan of [Ext] and the scan of [LastIndex] stop at the same dot. *)
Lemma Ext_from_lastDot path k :
  k <= len path ->
  Ext_from path k <> "" ->
  (0 <= LastIndexByte_from path "." k)%Z /\
  Z.to_nat (LastIndexByte_from path "." k) <= len path /\
  Ext_from path k
  = slice path (Z.to_nat (LastIndexByte_from path "." k)) (len path).
Proof.
  induction k as [|k IH]; intros Hk Hne; [done|]. simpl in *.
  destruct (String.get k path) as [c|]; [|done].
  destruct (IsPathSeparator c); [done|].
  unfold is_dot in *. destruct (Ascii.eqb c "."); [|apply IH; [lia|done]].
  rewrite Nat2Z.id. split_and!; [lia | lia | done].
Qed.

Lemma Ext_from_dot_free path k :
  free_of is_dot path = true -> Ext_from path k = "".
Proof.
  intros Hfree. induction k as [|k IH]; simpl; [done|].
  destruct (String.get k path) as [c|] eqn:Hc; [|done].
  destruct (IsPathSeparator c); [done|].
  by rewrite (free_of_get _ _ _ _ Hfree Hc).
Qed.

End ExtensionFacts.

(** X11. For a file name with an extension the slice [fileName[:lastDot]]
    is in bounds and cuts off exactly the extension: the name is that
    slice followed by [filepath.Ext], so the canonical output differs
    from the input in the extension only. *)
Theorem extension_is_what_lastDot_cuts f :
  filepath.Ext f <> "" ->
  0 <= lastDot f /\
  slice f 0 (Z.to_nat (lastDot f)) ++ filepath.Ext f = f /\
  extCorrectedOriginal f = slice f 0 (Z.to_nat (lastDot f)) ++ ".mp4".
Proof.
  intros Hne.
  destruct (Ext_from_lastDot f (len f) (le_n _) Hne) as (H0 & Hle & HE).
  split_and!; [done | | done].
  unfold filepath.Ext. rewrite HE. by apply slice_split.
Qed.

Lemma extension_is_what_lastDot_cuts_witness :
  0 <= lastDot "a.b/video.x.mkv" /\
  slice "a.b/video.x.mkv" 0 (Z.to_nat (lastDot "a.b/video.x.mkv"))
  ++ filepath.Ext "a.b/video.x.mkv" = "a.b/video.x.mkv" /\
  extCorrectedOriginal "a.b/video.x.mkv" = "a.b/video.x.mp4".
Proof.
  pose proof (extension_is_what_lastDot_cuts "a.b/video.x.mkv") as H.
  destruct H as (H1 & H2 & H3); [vm_compute; discriminate|].
  split_and!; [exact H1 | exact H2 | rewrite H3; reflexivity].
Defined.

(** X8. A file that already has the canonical extension is its own
    canonical output, so on the replace path the transcoded file ends up
    at the path of the original. *)
Theorem canonical_input_is_replaced_in_place e f w O T :
  filepath.Ext f = ".mp4" ->
  extCorrectedOriginal f = f /\
  (session_ran (events (loop_body e f w)) = true ->
   files w !! f = Some O ->
   terminated (after_session e f w) = false ->
   killed (session e f) = false ->
   output (session e f) = Some T ->
   keep_old e && (T >? O) = false ->
   no_faults e f ->
   let r := loop_body e f w in
   notified (events r) = [ResultReplaced] /\
   files (final r) !! f = Some T /\
   files (final r) !! tempFileName f = None /\
   files (final r) !! processedFileName f = Some 0).
Proof.
  intros HExt.
  assert (extCorrectedOriginal f = f) as Hg.
  { destruct (Ext_from_lastDot f (len f) (le_n _)) as (_ & Hle & HE).
    - fold (filepath.Ext f). by rewrite HExt.
    - fold (filepath.Ext f) in HE. unfold extCorrectedOriginal.
      rewrite <- HExt, HE. by apply slice_split. }
  split; [done|].
  intros Hran HO Hflag Hk Hout Hb Hnf.
  destruct (completed_replace e f w O T Hran HO Hflag Hk Hout
              (no_faults_probe e f Hnf) (no_faults_io e f _ Hnf) Hb
              (no_faults_io e f _ Hnf) (no_faults_io e f _ Hnf))
    as (He & Hf & _).
  simpl. rewrite He, Hf, notified_prologue, Hg.
  pose proof (processed_neq_original f) as Hpo.
  pose proof (temp_neq_original f) as Hne.
  split_and!; try done.
  - by fs.
  - by fs.
  - rewrite lookup_insert_ne by (by apply not_eq_sym). by fs.
Qed.

Lemma canonical_input_is_replaced_in_place_witness :
  let e := quiet_env false (completes (300 * MB)) in
  let r := loop_body e "video.mp4" (one_file "video.mp4" (500 * MB)) in
  extCorrectedOriginal "video.mp4" = "video.mp4" /\
  notified (events r) = [ResultReplaced] /\
  files (final r) !! "video.mp4" = Some (300 * MB).
Proof.
  pose proof (canonical_input_is_replaced_in_place
                (quiet_env false (completes (300 * MB))) "video.mp4"
                (one_file "video.mp4" (500 * MB)) (500 * MB) (300 * MB)) as H.
  destruct H as (H1 & H2); [reflexivity|].
  destruct H2 as (H3 & H4 & _); try (vm_compute; reflexivity).
  { split; [intros c|]; reflexivity. }
  split_and!; assumption.
Defined.

(** X12. When the allow-list admits the empty extension, a file name
    without any dot passes the filter, [strings.LastIndex] answers -1 and
    the slice [fileName[:lastDot]] panics: the run ends there, before any
    call for this file and without a look at the files left. *)
Theorem dotless_name_ends_the_run e f rest w :
  valid_extension (extensions e) "" = true ->
  free_of is_dot f = true ->
  filepath.Ext f = "" /\
  lastDot f = -1 /\
  loop_body e f w = (Exit, w, []) /\
  (terminated w = false -> signal_before e f = false ->
   Run e (f :: rest) w = (w, [])).
Proof.
  intros Hv Hfree.
  assert (filepath.Ext f = "") as HExt by (by apply Ext_from_dot_free).
  assert (lastDot f = -1) as Hd by (by apply LastIndexByte_from_free).
  assert (loop_body e f w = (Exit, w, [])) as Hbody.
  { unfold loop_body. unfold_calls. by run. }
  split_and!; try done.
  intros Ht Hs. cbn [Run]. by rewrite Hs, deliver_false, Ht, Hbody.
Qed.

Lemma dotless_name_ends_the_run_witness :
  let e := env_with [""; ".mp4"] false (fun _ => false)
                    (completes (300 * MB)) in
  let w := {| files := {[ "video" := 500 * MB; "b.mp4" := 400 * MB ]};
              terminated := false |} in
  loop_body e "video" w = (Exit, w, []) /\
  Run e ["video"; "b.mp4"] w = (w, []).
Proof.
  pose proof (dotless_name_ends_the_run
                (env_with [""; ".mp4"] false (fun _ => false)
                          (completes (300 * MB)))
                "video" ["b.mp4"]
                {| files := {[ "video" := 500 * MB; "b.mp4" := 400 * MB ]};
                   terminated := false |}) as H.
  destruct H as (_ & _ & H1 & H2); try reflexivity.
  split; [exact H1 | apply H2; reflexivity].
Defined.

(** ** The glob stage *)

Lemma glob_args_no_loop_event glob args fileList :
  List.filter is_loop_event (glob_args glob args fileList).2 = [].
Proof.
  revert fileList. induction args as [|arg args IH]; intros fileList; [done|].
  cbn [glob_args]. destruct (glob arg) as [found|]; [|done].
  specialize (IH (fileList ++ found)%list).
  by destruct (glob_args glob args (fileList ++ found)) as [r evs].
Qed.

(** X13. The file list is made of the matches of the arguments, in the
    order of the arguments; an argument that matches nothing adds nothing
    and is no error; and the loop runs over exactly that list. *)
Theorem file_list_is_the_matches_in_order glob g e args w :
  (forall arg, In arg args -> glob arg = Some (g arg)) ->
  (forall acc,
     glob_args glob args acc
     = (Some (acc ++ List.concat (List.map g args))%list,
        List.map (fun arg => CTrace arg (List.length (g arg))) args)) /\
  rootCmd_Run glob e args w
  = (let '(w', evs) := Run e (List.concat (List.map g args)) w in
     (w', (List.map (fun arg => CTrace arg (List.length (g arg))) args
           ++ List.map CLoop evs)%list)).
Proof.
  intros Hg.
  assert (forall acc,
     glob_args glob args acc
     = (Some (acc ++ List.concat (List.map g args))%list,
        List.map (fun arg => CTrace arg (List.length (g arg))) args)) as H.
  { induction args as [|arg args IH]; intros acc.
    - simpl. by rewrite app_nil_r.
    - cbn [glob_args]. rewrite (Hg arg (or_introl eq_refl)).
      rewrite IH by (intros a Ha; apply Hg; by right).
      simpl. by rewrite app_assoc. }
  split; [done|]. unfold rootCmd_Run. by rewrite H.
Qed.

Lemma file_list_is_the_matches_in_order_witness :
  let glob := fun arg => if String.eqb arg "*.flv"
                         then Some ["a.flv"; "b.flv"] else Some [] in
  glob_args glob ["*.avi"; "*.flv"; "*.mkv"] []
  = (Some ["a.flv"; "b.flv"],
     [CTrace "*.avi" 0; CTrace "*.flv" 2; CTrace "*.mkv" 0]).
Proof.
  pose proof (file_list_is_the_matches_in_order
                (fun arg => if String.eqb arg "*.flv"
                            then Some ["a.flv"; "b.flv"] else Some [])
                (fun arg => if String.eqb arg "*.flv"
                            then ["a.flv"; "b.flv"] else [])
                (quiet_env false (completes 0))
                ["*.avi"; "*.flv"; "*.mkv"]
                (one_file "a.flv" 1)) as H.
  destruct H as [H _].
  { intros arg _. by destruct (String.eqb arg "*.flv"). }
  exact (H []).
Defined.

(** X14. A malformed pattern anywhere among the arguments is fatal in the
    glob stage: the loop is never entered, so no file is looked at, not
    even the matches of the arguments before it, and the file system is
    left as it was. *)
Theorem bad_pattern_stops_before_the_loop glob e args w bad :
  In bad args -> glob bad = None ->
  (forall acc, (glob_args glob args acc).1 = None) /\
  (rootCmd_Run glob e args w).1 = w /\
  List.filter is_loop_event (rootCmd_Run glob e args w).2 = [] /\
  In CFatal (rootCmd_Run glob e args w).2.
Proof.
  intros Hin Hbad.
  assert (forall acc, (glob_args glob args acc).1 = None /\
                      In CFatal (glob_args glob args acc).2) as H.
  { induction args as [|arg args IH]; intros acc; [done|].
    cbn [glob_args]. destruct Hin as [-> | Hin].
    - rewrite Hbad. simpl. by eauto.
    - destruct (glob arg) as [found|]; [|simpl; by eauto].
      destruct (IH Hin (acc ++ found)%list) as [H1 H2].
      destruct (glob_args glob args (acc ++ found)) as [r evs].
      simpl in *. by eauto. }
  split; [intros acc; apply H|].
  unfold rootCmd_Run.
  pose proof (glob_args_no_loop_event glob args []) as Hno.
  destruct (H []) as [H1 H2].
  destruct (glob_args glob args []) as [r evs]. simpl in *. subst r. done.
Qed.

Lemma bad_pattern_stops_before_the_loop_witness :
  let glob := fun arg => if String.eqb arg "[" then None
                         else Some ["a.flv"] in
  let e := quiet_env false (completes (300 * MB)) in
  let w := one_file "a.flv" (500 * MB) in
  (rootCmd_Run glob e ["*.flv"; "["] w).1 = w /\
  List.filter is_loop_event (rootCmd_Run glob e ["*.flv"; "["] w).2 = [].
Proof.
  pose proof (bad_pattern_stops_before_the_loop
                (fun arg => if String.eqb arg "[" then None
                            else Some ["a.flv"])
                (quiet_env false (completes (300 * MB)))
                ["*.flv"; "["] (one_file "a.flv" (500 * MB)) "[") as H.
  destruct H as (_ & H1 & H2 & _); [by right; left | reflexivity |].
  split; assumption.
Defined.

(** ** What a later pass finds *)

(** The rest of an iteration in terms of [conclude]. *)
Lemma loop_body_via_conclude e f w O fl w' evs :
  session_ran (events (loop_body e f w)) = true ->
  files w !! f = Some O ->
  conclude e f {| SizeInt := O |} (killed (session e f))
           (lastReport (session e f)) (after_session e f w) = (fl, w', evs) ->
  loop_body e f w = (fl, w', (prologue f ++ evs)%list).
Proof.
  intros Hran HO Hc. apply session_ran_reaches in Hran.
  destruct (loop_body_reach e f w Hran) as (O' & HO' & ->).
  assert (O' = O) as -> by congruence. by rewrite Hc.
Qed.

(** Either sentinel stops every later pass. *)
Lemma later_passes_sentinel es f w :
  is_Some (files w !! processedFileName f) \/
  is_Some (files w !! tempFileName f) ->
  session_ran (later_passes es f w) = false /\
  mutations (later_passes es f w) = [].
Proof.
  revert w. induction es as [|e es IH]; intros w Hs; [done|].
  destruct (loop_body_skip e f w (sentinel_not_reached e f w Hs))
    as (fl & evs & Heq & Hran & Hmu & _).
  cbn [later_passes]. rewrite Heq. unfold final, events. simpl.
  destruct (IH w Hs) as [IHs IHm].
  unfold session_ran, mutations in *.
  by rewrite existsb_app, List.filter_app, Hran, Hmu, IHs, IHm.
Qed.

(** Once created, the marker is there at the end of the iteration. *)
Lemma conclude_marker_stays e f meta k r w fl w' evs :
  conclude e f meta k r w = (fl, w', evs) ->
  In (EOs (Create (processedFileName f)) None) evs ->
  files w' !! processedFileName f = Some 0.
Proof.
  set (P := fun (w' : world) (evs : list event) =>
              In (EOs (Create (processedFileName f)) None) evs ->
              files w' !! processedFileName f = Some 0).
  intros Heq. change (P w' evs). revert Heq.
  unfold conclude, killed_path, decide_result. unfold_calls.
  destruct k, r as [[ts]|]; explore.
  all: intros ?; simplify_eq; unfold P; simpl; intros Hin.
  all: try (by fs).
  all: intuition discriminate.
Qed.

Lemma created_marker_stays e f w :
  In (EOs (Create (processedFileName f)) None) (events (loop_body e f w)) ->
  files (final (loop_body e f w)) !! processedFileName f = Some 0.
Proof.
  intros Hin. destruct (reaches_session e f w) eqn:Hr.
  - destruct (loop_body_reach e f w Hr) as (O & _ & Heq).
    rewrite Heq in Hin |- *.
    destruct (conclude e f {| SizeInt := O |} (killed (session e f))
                (lastReport (session e f)) (after_session e f w))
      as [[fl w'] evs] eqn:Hc.
    unfold final, events in *. simpl in *.
    apply (conclude_marker_stays _ _ _ _ _ _ _ _ _ Hc).
    destruct Hin as [H|[H|[H|[H|[H|H]]]]]; try discriminate. done.
  - destruct (loop_body_skip e f w Hr) as (fl & evs & Heq & _ & Hmu & _).
    rewrite Heq in Hin. unfold events in Hin. simpl in Hin.
    assert (In (EOs (Create (processedFileName f)) None) (mutations evs)) as H
      by (apply List.filter_In; by split).
    by rewrite Hmu in H.
Qed.

(** X9. Once the creation of the marker has succeeded, whatever becomes
    of the transcode afterwards (kept, replaced, killed, a failed removal
    or rename), the marker is there at the end of the iteration and every
    later pass over the file skips it: no session, no mutation. *)
Theorem created_marker_ends_all_work e f w :
  In (EOs (Create (processedFileName f)) None) (events (loop_body e f w)) ->
  let r := loop_body e f w in
  files (final r) !! processedFileName f = Some 0 /\
  forall es,
    session_ran (later_passes es f (final r)) = false /\
    mutations (later_passes es f (final r)) = [].
Proof.
  intros Hin. simpl.
  pose proof (created_marker_stays e f w Hin) as Hm.
  split; [done|]. intros es. apply later_passes_sentinel. left. by rewrite Hm.
Qed.

Lemma created_marker_ends_all_work_witness :
  let e := env_with default_extensions true is_remove
                    (completes (900 * MB)) in
  let r := loop_body e "video.flv" (one_file "video.flv" (500 * MB)) in
  files (final r) !! processedFileName "video.flv" = Some 0 /\
  forall es,
    session_ran (later_passes es "video.flv" (final r)) = false /\
    mutations (later_passes es "video.flv" (final r)) = [].
Proof.
  apply (created_marker_ends_all_work
           (env_with default_extensions true is_remove (completes (900 * MB)))
           "video.flv" (one_file "video.flv" (500 * MB))).
  vm_compute. tauto.
Defined.

(** X10. Files that differ in the extension only share the canonical
    output and the marker. After an iteration that created the marker for
    one of them, every pass over the other skips it: the sibling is never
    transcoded. *)
Theorem sibling_extension_is_never_transcoded e stem x1 x2 w :
  free_of is_dot x1 = true -> free_of is_dot x2 = true ->
  let f1 := stem ++ String "." x1 in
  let f2 := stem ++ String "." x2 in
  extCorrectedOriginal f1 = extCorrectedOriginal f2 /\
  processedFileName f1 = processedFileName f2 /\
  (In (EOs (Create (processedFileName f1)) None) (events (loop_body e f1 w)) ->
   forall es,
     session_ran (later_passes es f2 (final (loop_body e f1 w))) = false /\
     mutations (later_passes es f2 (final (loop_body e f1 w))) = []).
Proof.
  intros H1 H2. simpl.
  assert (forall x, free_of is_dot x = true ->
                    extCorrectedOriginal (stem ++ String "." x)
                    = stem ++ ".mp4") as Hg.
  { intros x Hx. unfold extCorrectedOriginal, lastDot.
    rewrite LastIndexByte_app by done. by rewrite Nat2Z.id, slice_prefix. }
  assert (processedFileName (stem ++ String "." x1)
          = processedFileName (stem ++ String "." x2)) as Hm.
  { unfold processedFileName. by rewrite !Hg. }
  split_and!; [by rewrite !Hg | done |].
  intros Hin es. apply later_passes_sentinel. left.
  rewrite <- Hm. by rewrite (created_marker_stays e _ w Hin).
Qed.

Lemma sibling_extension_is_never_transcoded_witness :
  let e := quiet_env false (completes (300 * MB)) in
  let w := {| files := {[ "video.flv" := 500 * MB; "video.mkv" := 400 * MB ]};
              terminated := false |} in
  processedFileName "video.flv" = processedFileName "video.mkv" /\
  forall es,
    session_ran (later_passes es "video.mkv"
                   (final (loop_body e "video.flv" w))) = false /\
    mutations (later_passes es "video.mkv"
                 (final (loop_body e "video.flv" w))) = [].
Proof.
  pose proof (sibling_extension_is_never_transcoded
                (quiet_env false (completes (300 * MB))) "video" "flv" "mkv"
                {| files := {[ "video.flv" := 500 * MB;
                               "video.mkv" := 400 * MB ]};
                   terminated := false |}) as H.
  destruct H as (_ & H1 & H2); try reflexivity.
  split; [exact H1 | apply H2]. vm_compute. tauto.
Defined.

(** ** Failing calls after the session *)

Section ConcludeFailures.
Variables (e : env) (f : string) (O : Z) (w : world).
Hypothesis Hflag : terminated w = false.
Hypothesis Hcreate : io_error e (Create (processedFileName f)) = false.

Lemma conclude_killed_no_temp r :
  io_error e (Remove (tempFileName f)) = false ->
  files w !! tempFileName f = None ->
  conclude e f {| SizeInt := O |} true r w
  = (Continue, set_files (<[processedFileName f := 0]> (files w)) w,
     [EOs (Create (processedFileName f)) None;
      EOs (Remove (tempFileName f)) (Some ErrNotExist)]
     ++ (if report_exceeds r O
         then [ELog Info f; ENotifyEnd None r ResultKeepOriginal]
         else []))%list.
Proof.
  intros Hrm Ht. unfold conclude, killed_path. unfold_calls. run.
  destruct r as [[ts]|]; simpl; run; [|done].
  destruct (ts >? O); simpl; by run.
Qed.

Variable T : Z.
Hypothesis Hprobe : probe_error e (tempFileName f) = false.
Hypothesis Htemp : files w !! tempFileName f = Some T.

Lemma conclude_keep_remove_fails r :
  keep_old e && (T >? O) = true ->
  io_error e (Remove (tempFileName f)) = true ->
  conclude e f {| SizeInt := O |} false r w
  = (Continue, set_files (<[processedFileName f := 0]> (files w)) w,
     [EOs (Create (processedFileName f)) None;
      EReadFileMetadata (tempFileName f);
      EOs (Remove (tempFileName f)) (Some ErrOther);
      ELog Error (tempFileName f)]).
Proof.
  intros Hk Hrm. unfold conclude, decide_result. unfold_calls. by run.
Qed.

Lemma conclude_replace_remove_fails r :
  keep_old e && (T >? O) = false ->
  io_error e (Remove f) = true ->
  conclude e f {| SizeInt := O |} false r w
  = (Continue, set_files (<[processedFileName f := 0]> (files w)) w,
     [EOs (Create (processedFileName f)) None;
      EReadFileMetadata (tempFileName f);
      EOs (Remove f) (Some ErrOther);
      ELog Error f]).
Proof.
  intros Hk Hrm. unfold conclude, decide_result. unfold_calls. by run.
Qed.

End ConcludeFailures.

(** X15. A temp output left behind blocks the file. When the flag is set
    on return (an interrupted encode) or the creation of the marker
    fails, the driver ends the iteration with the temp output the session
    wrote still in place and no marker; every later pass then takes the
    file for one that is being transcoded and skips it, so it is not
    transcoded until the temp output is removed by hand. *)
Theorem leftover_temp_blocks_the_file e f w O sz :
  session_ran (events (loop_body e f w)) = true ->
  files w !! f = Some O ->
  output (session e f) = Some sz ->
  terminated (after_session e f w) = true \/
  io_error e (Create (processedFileName f)) = true ->
  let r := loop_body e f w in
  mutations (events r)
  = (if terminated (after_session e f w) then []
     else [EOs (Create (processedFileName f)) (Some ErrOther)]) /\
  files (final r) !! tempFileName f = Some sz /\
  files (final r) !! processedFileName f = None /\
  files (final r) !! f = Some O /\
  forall es,
    session_ran (later_passes es f (final r)) = false /\
    mutations (later_passes es f (final r)) = [].
Proof.
  intros Hran HO Hout Hcase.
  destruct (loop_body_session e f w O Hran HO) as (_ & _ & _ & Hm & Ht).
  assert (exists evs,
             loop_body e f w = (Continue, after_session e f w,
                                (prologue f ++ evs)%list) /\
             mutations evs
             = if terminated (after_session e f w) then []
               else [EOs (Create (processedFileName f)) (Some ErrOther)])
    as (evs & Heq & Hmu).
  { destruct (terminated (after_session e f w)) eqn:Hflag.
    - eexists. split.
      + apply (loop_body_via_conclude e f w O); try done.
        by apply conclude_terminated.
      + done.
    - destruct Hcase as [|Hc]; [done|]. eexists. split.
      + apply (loop_body_via_conclude e f w O); try done.
        by apply conclude_create_fails.
      + done. }
  simpl. rewrite Heq. unfold final, events. cbn [fst snd].
  rewrite mutations_prologue, Hmu.
  assert (files (after_session e f w) !! tempFileName f = Some sz) as Htemp
    by (by rewrite after_session_temp).
  split_and!; try done.
  - rewrite after_session_other by apply processed_neq_temp. done.
  - by rewrite after_session_original.
  - intros es. apply later_passes_sentinel. right. by rewrite Htemp.
Qed.

Lemma leftover_temp_blocks_the_file_witness :
  let e := quiet_env false (signalled (100 * MB)) in
  let r := loop_body e "video.flv" (one_file "video.flv" (500 * MB)) in
  files (final r) !! tempFileName "video.flv" = Some (100 * MB) /\
  files (final r) !! processedFileName "video.flv" = None /\
  files (final r) !! "video.flv" = Some (500 * MB) /\
  forall es,
    session_ran (later_passes es "video.flv" (final r)) = false /\
    mutations (later_passes es "video.flv" (final r)) = [].
Proof.
  pose proof (leftover_temp_blocks_the_file
                (quiet_env false (signalled (100 * MB))) "video.flv"
                (one_file "video.flv" (500 * MB)) (500 * MB) (100 * MB)) as H.
  destruct H as (_ & H); try (vm_compute; reflexivity).
  { left. vm_compute. reflexivity. }
  exact H.
Defined.

(** X16. After a normal exit, a removal that fails ends the iteration
    with an error line and nothing else: the temp output on the keep
    path, the original on the replace path. Both files are still there,
    nothing is renamed or notified, and the marker, created before, makes
    later passes skip the file. *)
Theorem failed_removal_leaves_both_files e f w O T :
  session_ran (events (loop_body e f w)) = true ->
  files w !! f = Some O ->
  terminated (after_session e f w) = false ->
  killed (session e f) = false ->
  output (session e f) = Some T ->
  probe_error e (tempFileName f) = false ->
  io_error e (Create (processedFileName f)) = false ->
  io_error e (Remove (if keep_old e && (T >? O)
                      then tempFileName f else f)) = true ->
  let r := loop_body e f w in
  let victim := if keep_old e && (T >? O) then tempFileName f else f in
  mutations (events r) = [EOs (Create (processedFileName f)) None;
                          EOs (Remove victim) (Some ErrOther)] /\
  notified (events r) = [] /\
  control r = Continue /\
  files (final r) !! f = Some O /\
  files (final r) !! tempFileName f = Some T /\
  files (final r) !! processedFileName f = Some 0.
Proof.
  intros Hran HO Hflag Hk Hout Hp Hc Hrm.
  pose proof (completed_temp e f w O T Hran HO Hout) as Ht.
  pose proof (after_session_original e f w) as Hfo.
  assert (exists evs,
             loop_body e f w
             = (Continue,
                set_files (<[processedFileName f := 0]>
                             (files (after_session e f w)))
                          (after_session e f w),
                (prologue f ++ evs)%list) /\
             mutations evs
             = [EOs (Create (processedFileName f)) None;
                EOs (Remove (if keep_old e && (T >? O)
                             then tempFileName f else f)) (Some ErrOther)] /\
             notified evs = []) as (evs & Heq & Hmu & Hno).
  { destruct (keep_old e && (T >? O)) eqn:Hb.
    - eexists. split.
      + apply (loop_body_via_conclude e f w O); try done. rewrite Hk.
        by apply (conclude_keep_remove_fails e f O _ Hflag Hc T).
      + done.
    - eexists. split.
      + apply (loop_body_via_conclude e f w O); try done. rewrite Hk.
        by apply (conclude_replace_remove_fails e f O _ Hflag Hc T).
      + done. }
  simpl. rewrite Heq. unfold final, events, control. cbn [fst snd].
  rewrite mutations_prologue, notified_prologue, Hmu, Hno.
  remember (after_session e f w) as w1 eqn:Hw1. simpl.
  split_and!; try done.
  - fs. by rewrite Hfo.
  - by fs.
  - by fs.
Qed.

Lemma failed_removal_leaves_both_files_witness :
  let e := env_with default_extensions false is_remove
                    (completes (300 * MB)) in
  let r := loop_body e "video.flv" (one_file "video.flv" (500 * MB)) in
  mutations (events r)
  = [EOs (Create (processedFileName "video.flv")) None;
     EOs (Remove "video.flv") (Some ErrOther)] /\
  notified (events r) = [] /\
  control r = Continue /\
  files (final r) !! "video.flv" = Some (500 * MB) /\
  files (final r) !! tempFileName "video.flv" = Some (300 * MB) /\
  files (final r) !! processedFileName "video.flv" = Some 0.
Proof.
  apply (failed_removal_leaves_both_files
           (env_with default_extensions false is_remove (completes (300 * MB)))
           "video.flv" (one_file "video.flv" (500 * MB))
           (500 * MB) (300 * MB)); vm_compute; reflexivity.
Defined.

(** X17. On the kill path a temp output that is not there is no error:
    the removal answers not-exist, the driver goes on and still notifies
    [ResultKeepOriginal] for a report above the original's size. Any
    other failure of the removal ends the iteration without a
    notification, whatever the report says, and leaves the temp output
    and the marker behind. *)
Theorem kill_path_tolerates_missing_temp e f w O :
  session_ran (events (loop_body e f w)) = true ->
  files w !! f = Some O ->
  terminated (after_session e f w) = false ->
  killed (session e f) = true ->
  io_error e (Create (processedFileName f)) = false ->
  let r := loop_body e f w in
  let s := session e f in
  (output s = None -> io_error e (Remove (tempFileName f)) = false ->
     mutations (events r)
     = [EOs (Create (processedFileName f)) None;
        EOs (Remove (tempFileName f)) (Some ErrNotExist)] /\
     notified (events r)
     = (if report_exceeds (lastReport s) O then [ResultKeepOriginal] else [])) /\
  (io_error e (Remove (tempFileName f)) = true ->
     notified (events r) = [] /\
     files (final r) !! tempFileName f = output s /\
     files (final r) !! processedFileName f = Some 0).
Proof.
  intros Hran HO Hflag Hk Hc.
  destruct (loop_body_session e f w O Hran HO) as (_ & _ & _ & Hm & Ht).
  simpl. split.
  - intros Hout Hrm.
    assert (files (after_session e f w) !! tempFileName f = None) as Htemp
      by (by rewrite after_session_temp, Hout).
    erewrite (loop_body_via_conclude e f w O); try done;
      [|rewrite Hk; by apply conclude_killed_no_temp].
    unfold events. cbn [snd].
    rewrite mutations_prologue, notified_prologue.
    by destruct (report_exceeds _ _).
  - intros Hrm.
    erewrite (loop_body_via_conclude e f w O); try done;
      [|rewrite Hk; by apply conclude_killed_remove_fails].
    unfold events, final. cbn [fst snd]. rewrite notified_prologue.
    pose proof (after_session_temp e f w Ht) as Htemp.
    remember (after_session e f w) as w1 eqn:Hw1. simpl.
    split_and!; try done.
    + by fs.
    + by fs.
Qed.

Lemma kill_path_tolerates_missing_temp_witness :
  let s := {| killed := true;
              lastReport := Some {| TotalSize := 600 * MB |};
              output := None; interrupted := false |} in
  let e := quiet_env true s in
  let r := loop_body e "video.flv" (one_file "video.flv" (500 * MB)) in
  mutations (events r)
  = [EOs (Create (processedFileName "video.flv")) None;
     EOs (Remove (tempFileName "video.flv")) (Some ErrNotExist)] /\
  notified (events r) = [ResultKeepOriginal].
Proof.
  apply (kill_path_tolerates_missing_temp
           (quiet_env true
              {| killed := true;
                 lastReport := Some {| TotalSize := 600 * MB |};
                 output := None; interrupted := false |})
           "video.flv" (one_file "video.flv" (500 * MB)) (500 * MB));
    vm_compute; reflexivity.
Defined.

(** X18. The canonical output path is never looked at before the rename:
    when the input has another extension and a file already exists at
    the canonical path, the replace path overwrites it with the
    transcoded file. *)
Theorem existing_canonical_output_is_overwritten e f w O T X :
  session_ran (events (loop_body e f w)) = true ->
  files w !! f = Some O ->
  f <> extCorrectedOriginal f ->
  files w !! extCorrectedOriginal f = Some X ->
  terminated (after_session e f w) = false ->
  killed (session e f) = false ->
  output (session e f) = Some T ->
  keep_old e && (T >? O) = false ->
  no_faults e f ->
  let r := loop_body e f w in
  files (final r) !! extCorrectedOriginal f = Some T /\
  files (final r) !! f = None /\
  notified (events r) = [ResultReplaced] /\
  forall err, ~ In (EOs (Stat (extCorrectedOriginal f)) err) (events r).
Proof.
  intros Hran HO Hfg HX Hflag Hk Hout Hb Hnf.
  destruct (completed_replace e f w O T Hran HO Hflag Hk Hout
              (no_faults_probe e f Hnf) (no_faults_io e f _ Hnf) Hb
              (no_faults_io e f _ Hnf) (no_faults_io e f _ Hnf))
    as (He & Hf & _).
  pose proof (temp_neq_original f) as Hne.
  simpl. rewrite He, Hf, notified_prologue.
  split_and!; try done.
  - by fs.
  - apply not_eq_sym in Hfg. by fs.
  - intros err Hin. simpl in Hin.
    destruct Hin as [H|[H|[H|[H|Hin]]]]; try discriminate.
    + injection H as H _. by apply processed_neq_corrected in H.
    + injection H as H _. by apply temp_neq_corrected in H.
    + intuition discriminate.
Qed.

Lemma existing_canonical_output_is_overwritten_witness :
  let e := quiet_env false (completes (300 * MB)) in
  let w := {| files := {[ "video.flv" := 500 * MB; "video.mp4" := 42 ]};
              terminated := false |} in
  let r := loop_body e "video.flv" w in
  files (final r) !! extCorrectedOriginal "video.flv" = Some (300 * MB) /\
  files (final r) !! "video.flv" = None /\
  notified (events r) = [ResultReplaced].
Proof.
  pose proof (existing_canonical_output_is_overwritten
                (quiet_env false (completes (300 * MB))) "video.flv"
                {| files := {[ "video.flv" := 500 * MB; "video.mp4" := 42 ]};
                   terminated := false |} (500 * MB) (300 * MB) 42) as H.
  destruct H as (H1 & H2 & H3 & _); try (vm_compute; reflexivity).
  { vm_compute. discriminate. }
  { split; [intros c|]; reflexivity. }
  split_and!; assumption.
Defined.
